(** * StereoVision: the calibration driver (pystereovisiontoolkit.py) and the
      USB camera display (VisionToolkit/Camera.py), shallowly embedded. *)

From Stdlib Require Import String Ascii List ZArith Bool Lia Permutation.
From Stdlib Require Import Sorting.Sorted.
Import ListNotations.

(* ------------------------------------------------------------------ *)
(** ** Python builtins used by the driver *)

(** Python 2 [int(s)] on a [str] ([PyInt_FromString] with base 10, falling
    back to [PyLong_FromString] on overflow, which accepts the same strings):
    leading whitespace is skipped, then an optional sign, then whitespace
    again ([PyOS_strtoul] skips it after the sign), then one or more decimal
    digits, then trailing whitespace; anything else raises ValueError
    ([None]).  The driver is Python 2 code (Camera.py uses [cv2.cv], a
    Python 2 print statement and implicit relative imports). *)
Definition is_space (c : ascii) : bool :=
  match nat_of_ascii c with
  | 32 | 9 | 10 | 11 | 12 | 13 => true
  | _ => false
  end.

Fixpoint lstrip (l : list ascii) : list ascii :=
  match l with
  | c :: r => if is_space c then lstrip r else l
  | [] => []
  end.

Definition strip (l : list ascii) : list ascii := rev (lstrip (rev (lstrip l))).

Definition digit_val (c : ascii) : option Z :=
  let n := nat_of_ascii c in
  if (48 <=? n)%nat && (n <=? 57)%nat then Some (Z.of_nat (n - 48)) else None.

Fixpoint digits_acc (acc : Z) (l : list ascii) : option Z :=
  match l with
  | [] => Some acc
  | c :: r =>
      match digit_val c with
      | Some d => digits_acc (acc * 10 + d)%Z r
      | None => None
      end
  end.

Definition parse_digits (l : list ascii) : option Z :=
  match l with [] => None | _ => digits_acc 0%Z l end.

Definition py_int (s : string) : option Z :=
  match strip (list_ascii_of_string s) with
  | c :: r =>
      if Ascii.eqb c "-"%char then option_map Z.opp (parse_digits (lstrip r))
      else if Ascii.eqb c "+"%char then parse_digits (lstrip r)
      else parse_digits (c :: r)
  | [] => None
  end.

(** [sorted] on a list of (byte) strings: Python 2 compares [str] bytewise,
    which is [String.compare]; the result of any correct sort is the
    insertion sort below. *)
Fixpoint insert_sorted (x : string) (l : list string) : list string :=
  match l with
  | [] => [x]
  | y :: r => if String.leb x y then x :: y :: r else y :: insert_sorted x r
  end.

Fixpoint sorted (l : list string) : list string :=
  match l with
  | [] => []
  | x :: r => insert_sorted x (sorted r)
  end.

(* ------------------------------------------------------------------ *)
(** ** The parsed command line ([args = parser.parse_args()]) *)

(** [rows]/[cols]: [None] is the integer default (15 / 10), [Some s] a
    string given on the command line; [mono]: [None] when absent. *)
Record Args := mkArgs {
  live : bool;
  rows : option string;
  cols : option string;
  debug : bool;
  mono : option string;
  stereo : bool;
  output : bool;
  left : bool;
  right : bool;
  undistort : bool;
  undistort_stereo : bool }.

(** Python truthiness of [args.mono] (None and the empty string are false). *)
Definition py_truthy (o : option string) : bool :=
  match o with
  | None => false
  | Some s => negb (String.eqb s EmptyString)
  end.

Definition is_some {A} (o : option A) : bool :=
  match o with Some _ => true | None => false end.

Definition mono_value (o : option string) : string :=
  match o with Some s => s | None => EmptyString end.

(** Unpickled calibration objects are opaque to the driver. *)
Definition Obj := nat.

(** Observable actions of the driver: calls into [Viewer]/[Calibration],
    and the files opened for writing and the pickles dumped into them. *)
Inductive Event :=
| EvVmbStereoViewer (pattern_size : Z * Z)
| EvCameraCalibration (files : list string) (pattern_size : Z * Z) (dbg : bool)
| EvStereoCameraCalibration (cam1 cam2 : Obj) (dbg : bool)
| EvUndistortImages (calibration : Obj)
| EvStereoUndistortImages (cam1 cam2 calibration : Obj)
| EvOpenWrite (name : string)
| EvPickleDump (name : string) (obj : Obj).

(** The outside world: file system, glob, pickle and the external library.
    [None] / [false] means the call raises. *)
Record Env := mkEnv {
  glob_glob : string -> list string;
  fs_read : string -> option string;
  pickle_load : string -> option Obj;
  fs_writable : string -> bool;
  pickle_dumpable : Obj -> bool;
  lib_viewer : Z * Z -> bool;
  lib_camera_calibration : list string -> Z * Z -> bool -> option Obj;
  lib_stereo_calibration : Obj -> Obj -> bool -> option Obj;
  lib_undistort : Obj -> bool;
  lib_stereo_undistort : Obj -> Obj -> Obj -> bool }.

(** A writer-and-exception monad: the events so far, and [None] once an
    exception propagates (nothing in the driver catches one). *)
Definition M (A : Type) : Type := (list Event * option A)%type.

Definition ret {A} (x : A) : M A := ([], Some x).
Definition raise {A} : M A := ([], None).
Definition bind {A B} (m : M A) (k : A -> M B) : M B :=
  match m with
  | (t, None) => (t, None)
  | (t, Some x) => let (t', r) := k x in (t ++ t', r)
  end.
Definition emit (e : Event) : M unit := ([e], Some tt).

Notation "x <- c1 ;; c2" := (bind c1 (fun x => c2))
  (at level 61, c1 at next level, right associativity).
Notation "c1 ;; c2" := (bind c1 (fun _ => c2)) (at level 61, right associativity).

Definition of_option {A} (r : option A) : M A :=
  match r with Some x => ret x | None => raise end.
Definition of_bool (b : bool) : M unit := if b then ret tt else raise.

(** [int(v)] for an argparse value with an integer default. *)
Definition int_arg (v : option string) (default : Z) : M Z :=
  match v with
  | None => ret default
  | Some s => of_option (py_int s)
  end.

(** [pattern_size = ( int(args.rows), int(args.cols) )] *)
Definition pattern_size (args : Args) : M (Z * Z) :=
  r <- int_arg (rows args) 15 ;;
  c <- int_arg (cols args) 10 ;;
  ret (r, c).

(** [with open(name, 'rb') as f: x = pickle.load(f)] *)
Definition load (env : Env) (name : string) : M Obj :=
  match fs_read env name with
  | None => raise
  | Some data => of_option (pickle_load env data)
  end.

(** [with open(name, 'wb') as f: pickle.dump(x, f, HIGHEST_PROTOCOL)] *)
Definition dump (env : Env) (name : string) (x : Obj) : M unit :=
  if fs_writable env name then
    emit (EvOpenWrite name) ;;
    emit (EvPickleDump name x) ;;
    of_bool (pickle_dumpable env x)
  else raise.

(** The module body after argument parsing (lines 42-115). *)
Definition main (env : Env) (args : Args) : M unit :=
  ps <- pattern_size args ;;
  if live args then
    emit (EvVmbStereoViewer ps) ;; of_bool (lib_viewer env ps)
  else if py_truthy (mono args) then
    let files := sorted (glob_glob env (mono_value (mono args))) in
    emit (EvCameraCalibration files ps (debug args)) ;;
    calibration <- of_option (lib_camera_calibration env files ps (debug args)) ;;
    if output args then dump env "camera-calibration.pkl" calibration
    else if left args then dump env "camera-calibration-left.pkl" calibration
    else if right args then dump env "camera-calibration-right.pkl" calibration
    else ret tt
  else if stereo args then
    cam1 <- load env "camera-calibration-left.pkl" ;;
    cam2 <- load env "camera-calibration-right.pkl" ;;
    emit (EvStereoCameraCalibration cam1 cam2 (debug args)) ;;
    calibration <- of_option (lib_stereo_calibration env cam1 cam2 (debug args)) ;;
    if output args then dump env "stereo-calibration.pkl" calibration else ret tt
  else if undistort args then
    calibration <- load env "camera-calibration.pkl" ;;
    emit (EvUndistortImages calibration) ;;
    of_bool (lib_undistort env calibration)
  else if undistort_stereo args then
    cam1 <- load env "camera-calibration-left.pkl" ;;
    cam2 <- load env "camera-calibration-right.pkl" ;;
    calibration <- load env "stereo-calibration.pkl" ;;
    emit (EvStereoUndistortImages cam1 cam2 calibration) ;;
    of_bool (lib_stereo_undistort env cam1 cam2 calibration)
  else ret tt.

(** The five routines the driver can dispatch to, read off the events. *)
Inductive Routine := RLive | RMono | RStereo | RUndistort | RUndistortStereo.

Definition routine_of (e : Event) : option Routine :=
  match e with
  | EvVmbStereoViewer _ => Some RLive
  | EvCameraCalibration _ _ _ => Some RMono
  | EvStereoCameraCalibration _ _ _ => Some RStereo
  | EvUndistortImages _ => Some RUndistort
  | EvStereoUndistortImages _ _ _ => Some RUndistortStereo
  | _ => None
  end.

Fixpoint routines (t : list Event) : list Routine :=
  match t with
  | [] => []
  | e :: r => match routine_of e with Some x => x :: routines r | None => routines r end
  end.

(** Names of the files opened for writing, in order. *)
Fixpoint written (t : list Event) : list string :=
  match t with
  | [] => []
  | EvOpenWrite n :: r => n :: written r
  | _ :: r => written r
  end.

(** Reading a pickled file fails (open or unpickling raises). *)
Definition load_fails (env : Env) (name : string) : bool :=
  match fs_read env name with
  | None => true
  | Some data => match pickle_load env data with None => true | Some _ => false end
  end.

(** The dispatch order as the spec words it: a flag counts as set when it was
    given on the command line. *)
Definition spec_choice (args : Args) : option Routine :=
  if live args then Some RLive
  else if match mono args with Some _ => true | None => false end then Some RMono
  else if stereo args then Some RStereo
  else if undistort args then Some RUndistort
  else if undistort_stereo args then Some RUndistortStereo
  else None.

(** The same order, with [-mono] set when its value is truthy. *)
Definition truthy_choice (args : Args) : option Routine :=
  if live args then Some RLive
  else if py_truthy (mono args) then Some RMono
  else if stereo args then Some RStereo
  else if undistort args then Some RUndistort
  else if undistort_stereo args then Some RUndistortStereo
  else None.

(** Calibration files a branch reads before calling its routine. *)
Definition inputs_of (r : Routine) : list string :=
  match r with
  | RLive | RMono => []
  | RStereo => ["camera-calibration-left.pkl"; "camera-calibration-right.pkl"]%string
  | RUndistort => ["camera-calibration.pkl"]%string
  | RUndistortStereo =>
      ["camera-calibration-left.pkl"; "camera-calibration-right.pkl";
       "stereo-calibration.pkl"]%string
  end.

Definition pkl_files : list string :=
  ["camera-calibration.pkl"; "camera-calibration-left.pkl";
   "camera-calibration-right.pkl"; "stereo-calibration.pkl"]%string.

(** The -mono save target as the spec words it. *)
Definition mono_target (args : Args) : list string :=
  if output args then ["camera-calibration.pkl"%string]
  else if left args then ["camera-calibration-left.pkl"%string]
  else if right args then ["camera-calibration-right.pkl"%string]
  else [].

Definition arg_int (v : option string) (default : Z) : option Z :=
  match v with None => Some default | Some s => py_int s end.

(* ------------------------------------------------------------------ *)
(** ** The argument parser (lines 24-36) and argparse's option lookup *)

Inductive ArgAction := ActHelp | ActStoreTrue | ActStore.

(** [ArgumentParser] adds [-h]/[--help] first (add_help defaults to True),
    then the [add_argument] calls in order. *)
Definition parser_options : list (list string * ArgAction) :=
  [ (["-h"; "--help"]%string, ActHelp);
    (["-live"]%string, ActStoreTrue);
    (["-rows"]%string, ActStore);
    (["-cols"]%string, ActStore);
    (["-debug"]%string, ActStoreTrue);
    (["-mono"]%string, ActStore);
    (["-stereo"]%string, ActStoreTrue);
    (["-output"]%string, ActStoreTrue);
    (["-left"]%string, ActStoreTrue);
    (["-right"]%string, ActStoreTrue);
    (["-undistort"]%string, ActStoreTrue);
    (["-undistort_stereo"]%string, ActStoreTrue) ].

(** [parser._option_string_actions] *)
Definition option_string_actions : list (string * ArgAction) :=
  flat_map (fun p => map (fun s => (s, snd p)) (fst p)) parser_options.

(** Number of command-line values an action consumes ([nargs]). *)
Definition nargs (a : ArgAction) : nat :=
  match a with ActStore => 1 | _ => 0 end.

Fixpoint lookup_option (o : string) (l : list (string * ArgAction)) : option ArgAction :=
  match l with
  | [] => None
  | (s, a) :: r => if String.eqb s o then Some a else lookup_option o r
  end.

(** [s.split('=', 1)] when [s] contains '='. *)
Fixpoint split_eq (s : string) : option (string * string) :=
  match s with
  | EmptyString => None
  | String c r =>
      if Ascii.eqb c "="%char then Some (EmptyString, r)
      else match split_eq r with
           | Some (a, b) => Some (String c a, b)
           | None => None
           end
  end.

Definition is_dash (c : ascii) : bool := Ascii.eqb c "-"%char.

Inductive ParsedOption :=
| NotAnOption                                            (* a positional/value *)
| Matched (opt : string) (act : ArgAction) (explicit : option string)
| Ambiguous (opts : list string)                          (* parser.error *)
| Unrecognized.                                           (* parser.error later *)

(** [_get_option_tuples]: the candidate options an abbreviation stands for. *)
Definition option_tuples (arg : string) : list (string * ArgAction * option string) :=
  match arg with
  | String c1 (String c2 _) =>
      if is_dash c1 && is_dash c2 then
        let '(prefix, explicit) :=
          match split_eq arg with
          | Some (p, e) => (p, Some e)
          | None => (arg, None)
          end in
        flat_map (fun '(o, a) => if String.prefix prefix o then [(o, a, explicit)] else [])
          option_string_actions
      else if is_dash c1 then
        let short_prefix := String.substring 0 2 arg in
        let short_explicit := String.substring 2 (String.length arg - 2) arg in
        flat_map (fun '(o, a) =>
            if String.eqb o short_prefix then [(o, a, Some short_explicit)]
            else if String.prefix arg o then [(o, a, None)] else [])
          option_string_actions
      else []
  | _ => []
  end.

(** A decimal digit, [\d] of a [str] pattern in Python 2's [re]. *)
Definition is_digit (c : ascii) : bool :=
  match digit_val c with Some _ => true | None => false end.

(** [\d*\.\d+] matching all of [l]. *)
Fixpoint frac_digits (l : list ascii) : bool :=
  match l with
  | [] => false
  | c :: r =>
      if Ascii.eqb c "."%char then (match r with [] => false | _ => forallb is_digit r end)
      else is_digit c && frac_digits r
  end.

(** [-\d+] or [-\d*\.\d+] matching all of [l]. *)
Definition negative_body (l : list ascii) : bool :=
  match l with
  | c :: r => is_dash c && ((match r with [] => false | _ => forallb is_digit r end) || frac_digits r)
  | [] => false
  end.

(** [_negative_number_matcher.match(arg)] with the pattern
    '^-\d+$|^-\d*\.\d+$': [$] matches at the end of the string or just
    before a newline that ends it. *)
Definition is_negative_number (arg : string) : bool :=
  let l := list_ascii_of_string arg in
  negative_body l ||
  match rev l with
  | c :: t => Ascii.eqb c (ascii_of_nat 10) && negative_body (rev t)
  | [] => false
  end.

Definition has_space (s : string) : bool :=
  existsb (fun c => Ascii.eqb c " "%char) (list_ascii_of_string s).

(** [ArgumentParser._parse_optional] *)
Definition parse_optional (arg : string) : ParsedOption :=
  match arg with
  | EmptyString => NotAnOption
  | String c _ =>
      if negb (is_dash c) then NotAnOption else
      match lookup_option arg option_string_actions with
      | Some a => Matched arg a None
      | None =>
          if (String.length arg =? 1)%nat then NotAnOption else
          match
            match split_eq arg with
            | Some (o, e) =>
                match lookup_option o option_string_actions with
                | Some a => Some (Matched o a (Some e))
                | None => None
                end
            | None => None
            end
          with
          | Some m => m
          | None =>
              match option_tuples arg with
              | [(o, a, e)] => Matched o a e
              | (_ :: _ :: _) as l => Ambiguous (map (fun '(o, _, _) => o) l)
              | [] =>
                  if is_negative_number arg then NotAnOption
                  else if has_space arg then NotAnOption
                  else Unrecognized
              end
          end
      end
  end.

(** The flags as the spec lists them. *)
Definition spec_flags : list string :=
  ["-live"; "-rows"; "-cols"; "-debug"; "-mono"; "-stereo"; "-output"; "-left";
   "-right"; "-undistort"; "-undistort_stereo"]%string.

(* ------------------------------------------------------------------ *)
(** ** The USB camera display (UsbCamera and UsbCameraWidget)

    Two threads share the [UsbCamera] object: the capture thread runs
    [UsbCamera.run]; the GUI thread runs the Qt event loop, which handles the
    queued [image_received] signals with [UpdateImage] and the close event
    with [closeEvent].  Each [Label] is one atomic step of one thread; any
    interleaving of the labels is an execution. *)

(** A frame in [UsbCamera.image]: the device's frame number, and whether
    [cv2.cvtColor(..., COLOR_BGR2RGB)] has been applied to it. *)
Record Frame := mkFrame { frame_no : nat; frame_rgb : bool }.

(** Where the capture thread is in [run]. *)
Inductive CapturePc :=
| AtLoopTest      (* while self.running : *)
| AtRead          (* ok, self.image = self.camera.read() *)
| AtConvert       (* self.image = cv2.cvtColor( self.image, ... ) *)
| AtCallback      (* self.callback() *)
| AtRelease       (* self.camera.release() *)
| Finished        (* run returned *)
| Crashed.        (* an exception ended run *)

(** Where the GUI thread is: in the event loop, blocked in [Stop]'s
    [self.join()], or past [event.accept()]. *)
Inductive GuiPc := GuiRunning | GuiJoining | GuiClosed.

Record UsbState := mkUsb {
  image : option Frame;      (* UsbCamera.image *)
  next_frame : nat;          (* frames delivered by the device so far *)
  running : bool;            (* UsbCamera.running *)
  released : bool;           (* camera.release() was called *)
  cap_pc : CapturePc;
  pending : nat;             (* queued image_received signals *)
  emitted : nat;             (* callback() calls so far *)
  handled : nat;             (* UpdateImage calls so far *)
  shown : list Frame;        (* frames set as the widget's pixmap, in order *)
  gui_pc : GuiPc }.

Inductive Label :=
| LTest            (* capture thread: loop test *)
| LRead (ok : bool) (* capture thread: camera.read(), succeeding or not *)
| LConvert         (* capture thread: color conversion *)
| LCallback        (* capture thread: callback, i.e. image_received.emit *)
| LRelease         (* capture thread: camera.release() *)
| LUpdate          (* GUI thread: UpdateImage for one queued signal *)
| LClose           (* GUI thread: closeEvent calls Stop: running = False *)
| LJoin.           (* GUI thread: join() returns, event.accept() *)

(** After [UsbCameraWidget.__init__]: [UsbCamera.Start] has set
    [running = True] and started the thread. *)
Definition init : UsbState :=
  mkUsb None 0 true false AtLoopTest 0 0 0 [] GuiRunning.

Definition set_cap (s : UsbState) (img : option Frame) (nf : nat) (pc : CapturePc) : UsbState :=
  mkUsb img nf (running s) (released s) pc (pending s) (emitted s) (handled s)
        (shown s) (gui_pc s).

Definition cap_done (pc : CapturePc) : bool :=
  match pc with Finished | Crashed => true | _ => false end.

(** One step; [None] when the label's thread cannot take it. *)
Definition step (s : UsbState) (l : Label) : option UsbState :=
  match l, cap_pc s with
  | LTest, AtLoopTest =>
      Some (set_cap s (image s) (next_frame s) (if running s then AtRead else AtRelease))
  | LRead true, AtRead =>
      (* a successful read delivers the next frame, in BGR order *)
      Some (set_cap s (Some (mkFrame (next_frame s) false)) (S (next_frame s)) AtConvert)
  | LRead false, AtRead =>
      (* a failed read returns (False, None); [ok] is not looked at *)
      Some (set_cap s None (next_frame s) AtConvert)
  | LConvert, AtConvert =>
      match image s with
      | Some f => Some (set_cap s (Some (mkFrame (frame_no f) true)) (next_frame s) AtCallback)
      | None => (* cvtColor(None, ...) raises: the thread dies *)
          Some (set_cap s None (next_frame s) Crashed)
      end
  | LCallback, AtCallback =>
      Some (mkUsb (image s) (next_frame s) (running s) (released s) AtLoopTest
                  (S (pending s)) (S (emitted s)) (handled s) (shown s) (gui_pc s))
  | LRelease, AtRelease =>
      Some (mkUsb (image s) (next_frame s) (running s) true Finished
                  (pending s) (emitted s) (handled s) (shown s) (gui_pc s))
  | LUpdate, _ =>
      match gui_pc s, pending s with
      | GuiRunning, S p =>
          (* the pixmap is built from self.camera.image as it is now; with
             None, [.shape] raises inside the slot and nothing is shown *)
          Some (mkUsb (image s) (next_frame s) (running s) (released s) (cap_pc s)
                      p (emitted s) (S (handled s))
                      (shown s ++ match image s with Some f => [f] | None => [] end)
                      GuiRunning)
      | _, _ => None
      end
  | LClose, _ =>
      match gui_pc s with
      | GuiRunning =>
          Some (mkUsb (image s) (next_frame s) false (released s) (cap_pc s)
                      (pending s) (emitted s) (handled s) (shown s) GuiJoining)
      | _ => None
      end
  | LJoin, pc =>
      match gui_pc s with
      | GuiJoining =>
          if cap_done pc then
            Some (mkUsb (image s) (next_frame s) (running s) (released s) pc
                        (pending s) (emitted s) (handled s) (shown s) GuiClosed)
          else None
      | _ => None
      end
  | _, _ => None
  end.

(** An execution: the labels taken in order. *)
Fixpoint run (s : UsbState) (ls : list Label) : option UsbState :=
  match ls with
  | [] => Some s
  | l :: r => match step s l with Some s' => run s' r | None => None end
  end.

Definition reads (ls : list Label) : nat :=
  length (filter (fun l => match l with LRead _ => true | _ => false end) ls).

(** The frame whose callback is still to come, if any. *)
Definition in_flight (s : UsbState) : nat :=
  match cap_pc s, image s with
  | AtConvert, Some _ => 1
  | AtCallback, _ => 1
  | _, _ => 0
  end.

(** The order [sorted] sorts by. *)
Definition str_le (x y : string) : Prop := String.leb x y = true.

(* ------------------------------------------------------------------ *)
(** ** Concrete inputs *)

(** An environment in which every file, unpickling and library call succeeds. *)
Definition env_ok : Env :=
  mkEnv (fun _ => []) (fun _ => Some "data"%string) (fun _ => Some 0%nat)
        (fun _ => true) (fun _ => true) (fun _ => true)
        (fun _ _ _ => Some 1%nat) (fun _ _ _ => Some 2%nat)
        (fun _ => true) (fun _ _ _ => true).

(** -mono with an empty value, and -stereo *)
Definition args_empty_mono_stereo : Args :=
  mkArgs false None None false (Some EmptyString) true false false false false false.

(** [-live -rows abc] *)
Definition args_bad_rows_live : Args :=
  mkArgs true (Some "abc"%string) None false None false false false false false false.

(* ------------------------------------------------------------------ *)
(** ** Invariants and measures of the display threads *)

Definition usb_inv (s : UsbState) : Prop :=
  emitted s = handled s + pending s /\
  (forall f, In f (shown s) -> frame_no f < next_frame s) /\
  (forall f, image s = Some f -> frame_no f < next_frame s) /\
  (released s = true <-> cap_pc s = Finished) /\
  next_frame s = emitted s + in_flight s /\
  (cap_pc s = AtCallback -> image s = Some (mkFrame (next_frame s - 1) true)) /\
  (cap_pc s = AtConvert -> image s = None \/ image s = Some (mkFrame (next_frame s - 1) false)) /\
  (gui_pc s = GuiClosed -> running s = false /\ cap_done (cap_pc s) = true) /\
  (gui_pc s <> GuiRunning -> running s = false).

(** Camera reads the capture thread can still start once [running] is false. *)
Definition read_budget (s : UsbState) : nat :=
  match cap_pc s with AtRead => 1 | _ => 0 end.

(** Close while the capture thread is about to read, and the read fails. *)
Definition close_on_failed_read : list Label := [LTest; LClose; LRead false; LConvert; LJoin].

(** The capture thread is past a failed read, or dead. *)
Definition thread_dying (s : UsbState) : Prop :=
  (cap_pc s = AtConvert /\ image s = None) \/ cap_pc s = Crashed.

(** Two frames captured before the GUI handles either signal. *)
Definition two_frames_then_updates : list Label :=
  [LTest; LRead true; LConvert; LCallback; LTest; LRead true; LConvert; LCallback;
   LUpdate; LUpdate].

(** A glob whose enumeration order is not sorted, and [-mono *.png]. *)
Definition env_glob : Env :=
  mkEnv (fun _ => ["right.png"; "left.png"]%string) (fun _ => Some "data"%string)
        (fun _ => Some 0%nat) (fun _ => true) (fun _ => true) (fun _ => true)
        (fun _ _ _ => Some 1%nat) (fun _ _ _ => Some 2%nat)
        (fun _ => true) (fun _ _ _ => true).

Definition args_mono_glob : Args :=
  mkArgs false None None false (Some "*.png"%string) false true false false false false.

(** One frame captured, converted, signalled and shown. *)
Definition one_frame_shown : list Label := [LTest; LRead true; LConvert; LCallback; LUpdate].

(* ------------------------------------------------------------------ *)
(** ** Calibration files across runs

    The driver is meant to be run several times in a row (-mono -left,
    -mono -right, -stereo -output, then -undistort_stereo), each run reading
    the pickles the previous ones wrote. *)

(** [with open(name, 'rb') as f: obj = pickle.load(f)], when it returns. *)
Definition loaded (env : Env) (name : string) : option Obj :=
  match fs_read env name with
  | Some data => pickle_load env data
  | None => None
  end.

(** The object last pickled into file [n] during a run. *)
Fixpoint dumped (t : list Event) (n : string) : option Obj :=
  match t with
  | [] => None
  | EvPickleDump m o :: r =>
      match dumped r n with
      | Some o' => Some o'
      | None => if String.eqb m n then Some o else None
      end
  | _ :: r => dumped r n
  end.

(** The environment of the next run: each file a completed run pickled an
    object into now holds that object's pickle ([pickle_dumps]). *)
Definition after_run (pickle_dumps : Obj -> string) (env : Env) (t : list Event) : Env :=
  mkEnv (glob_glob env)
        (fun n => match dumped t n with
                  | Some o => Some (pickle_dumps o)
                  | None => fs_read env n
                  end)
        (pickle_load env) (fs_writable env) (pickle_dumpable env) (lib_viewer env)
        (lib_camera_calibration env) (lib_stereo_calibration env)
        (lib_undistort env) (lib_stereo_undistort env).

(** [env] with other file contents and another unpickler. *)
Definition with_files (env : Env) (rd : string -> option string) (pl : string -> option Obj) : Env :=
  mkEnv (glob_glob env) rd pl (fs_writable env) (pickle_dumpable env) (lib_viewer env)
        (lib_camera_calibration env) (lib_stereo_calibration env)
        (lib_undistort env) (lib_stereo_undistort env).

(** [env] with another [glob.glob]. *)
Definition with_glob (env : Env) (g : string -> list string) : Env :=
  mkEnv g (fs_read env) (pickle_load env) (fs_writable env) (pickle_dumpable env)
        (lib_viewer env) (lib_camera_calibration env) (lib_stereo_calibration env)
        (lib_undistort env) (lib_stereo_undistort env).

(** The parser's option strings, and those that start with [p]
    ([option_string.startswith(option_prefix)] in [_get_option_tuples]). *)
Definition option_names : list string := map fst option_string_actions.

Definition prefix_candidates (p : string) : list string :=
  filter (String.prefix p) option_names.

(** The abbreviation [p] of the flag [o] resolves to [o] when [o] is the only
    option string starting with [p], and is reported ambiguous when several
    do and [p] is not itself an option string. *)
Definition prefix_ok (o p : string) : bool :=
  match prefix_candidates p with
  | [o'] =>
      String.eqb o' o &&
      match parse_optional p with Matched o'' _ None => String.eqb o'' o | _ => false end
  | _ :: _ :: _ =>
      existsb (String.eqb p) option_names ||
      match parse_optional p with Ambiguous _ => true | _ => false end
  | [] => false
  end.

(** Every abbreviation [p] of the flag [o] resolves to [o], to an ambiguity
    error that names [o], or to [p] when [p] is itself a flag. *)
Definition abbrev_ok (o p : string) : bool :=
  match parse_optional p with
  | Matched o' _ None => String.eqb o' o || (String.eqb o' p && existsb (String.eqb p) spec_flags)
  | Ambiguous l => existsb (String.eqb o) l
  | _ => false
  end.

(* ------------------------------------------------------------------ *)
(** ** More of the USB camera threads *)

Definition frame_le (f g : Frame) : Prop := frame_no f <= frame_no g.

(** The frames shown so far are in capture order, and none was captured
    after the frame now in [UsbCamera.image]. *)
Definition shown_ordered (s : UsbState) : Prop :=
  StronglySorted frame_le (shown s) /\
  (forall f g, In f (shown s) -> image s = Some g -> frame_le f g).

(** One iteration of the loop in [UsbCamera.run] with a successful read. *)
Definition capture_round : list Label := [LTest; LRead true; LConvert; LCallback].

Fixpoint capture_rounds (n : nat) : list Label :=
  match n with 0 => [] | S k => capture_round ++ capture_rounds k end.

(** Callbacks the capture thread can still make once [running] is false. *)
Definition emit_budget (s : UsbState) : nat :=
  match cap_pc s, image s with
  | AtRead, _ => 1
  | AtConvert, Some _ => 1
  | AtCallback, _ => 1
  | _, _ => 0
  end.

(** The loop has been left only with [running] false. *)
Definition camera_gone (s : UsbState) : Prop :=
  (cap_pc s = AtRelease \/ cap_pc s = Finished) -> running s = false.

(* ------------------------------------------------------------------ *)
(** ** More concrete inputs *)

(** A pickle of a calibration object: [n] as [n] bytes. *)
Fixpoint blob (n : Obj) : string :=
  match n with 0 => EmptyString | S k => String "x" (blob k) end.

(** A disk with no calibration file yet; unpickling reads back what [blob]
    writes; the calibration routines return objects that tell their inputs
    apart. *)
Definition env_disk : Env :=
  mkEnv (fun _ => ["a.png"]%string) (fun _ => None) (fun s => Some (String.length s))
        (fun _ => true) (fun _ => true) (fun _ => true)
        (fun _ ps _ => Some (Z.to_nat (fst ps))) (fun c1 c2 _ => Some (c1 + c2)%nat)
        (fun _ => true) (fun _ _ _ => true).

(** As [env_disk], with every file present: a file's content is its name. *)
Definition env_calibrated : Env :=
  mkEnv (fun _ => ["a.png"]%string) (fun n => Some n) (fun s => Some (String.length s))
        (fun _ => true) (fun _ => true) (fun _ => true)
        (fun _ ps _ => Some (Z.to_nat (fst ps))) (fun c1 c2 _ => Some (c1 + c2)%nat)
        (fun _ => true) (fun _ _ _ => true).

(** [-mono *.png -rows 7 -left] *)
Definition args_mono_left : Args :=
  mkArgs false (Some "7"%string) None false (Some "*.png"%string) false false true false false false.

(** [-mono *.png -rows 9 -right] *)
Definition args_mono_right : Args :=
  mkArgs false (Some "9"%string) None false (Some "*.png"%string) false false false true false false.

(** [-mono *.png -rows 7 -output] *)
Definition args_mono_output : Args :=
  mkArgs false (Some "7"%string) None false (Some "*.png"%string) false true false false false false.

(** [-stereo] and [-stereo -output] *)
Definition args_stereo : Args :=
  mkArgs false None None false None true false false false false false.

Definition args_stereo_output : Args :=
  mkArgs false None None false None true true false false false false.

(** [-undistort] and [-undistort_stereo] *)
Definition args_undistort : Args :=
  mkArgs false None None false None false false false false true false.

Definition args_undistort_stereo : Args :=
  mkArgs false None None false None false false false false false true.

(** Two frames, each shown once. *)
Definition two_frames_shown : list Label :=
  [LTest; LRead true; LConvert; LCallback; LUpdate;
   LTest; LRead true; LConvert; LCallback; LUpdate].

(** A signal is queued for frame 0 while frame 1 has just been read. *)
Definition read_before_update : list Label :=
  [LTest; LRead true; LConvert; LCallback; LTest; LRead true].

(** The window is closed while the capture thread is about to read. *)
Definition closed_before_read : UsbState :=
  mkUsb None 0 false false AtRead 0 0 0 [] GuiJoining.

(** The last iteration, then the release and the join. *)
Definition last_round : list Label := [LRead true; LConvert; LCallback; LTest; LRelease; LJoin].

(** Close, one last frame, release. *)
Definition close_then_release : list Label :=
  [LTest; LClose; LRead true; LConvert; LCallback; LTest; LRelease].

(* ------------------------------------------------------------------ *)
(** ** Proof tactics *)

Ltac split_matches :=
  repeat (cbn in *;
    match goal with
    | H : context [match ?x with _ => _ end] |- _ =>
        lazymatch x with match _ with _ => _ end => fail | _ => destruct x eqn:? end
    | |- context [match ?x with _ => _ end] =>
        lazymatch x with match _ with _ => _ end => fail | _ => destruct x eqn:? end
    end).

Ltac unfold_main :=
  unfold main, pattern_size, int_arg, load, dump, of_option, of_bool,
    bind, ret, raise, emit in *.

Ltac clean_some :=
  repeat match goal with H : Some _ = Some _ |- _ => injection H as H; subst end.

Ltac step_cases Hs :=
  unfold step in Hs;
  repeat match type of Hs with
    | context [match ?x with _ => _ end] => destruct x eqn:?
    end; try discriminate; injection Hs as <-; cbn in *.

(* ------------------------------------------------------------------ *)
(** * Proofs *)

Lemma compare_not_gt_trans (a b c : string) :
  String.compare a b <> Gt -> String.compare b c <> Gt -> String.compare a c <> Gt.
Proof.
  revert b c; induction a as [|ca a IH]; intros [|cb b] [|cc c]; cbn;
    try discriminate; try tauto.
  unfold Ascii.compare.
  destruct (N.compare_spec (N_of_ascii ca) (N_of_ascii cb));
  destruct (N.compare_spec (N_of_ascii cb) (N_of_ascii cc));
  destruct (N.compare_spec (N_of_ascii ca) (N_of_ascii cc));
  try lia; try discriminate; eauto.
Qed.

Lemma str_le_trans (a b c : string) : str_le a b -> str_le b c -> str_le a c.
Proof.
  unfold str_le, String.leb.
  destruct (String.compare a b) eqn:E1; try discriminate;
  destruct (String.compare b c) eqn:E2; try discriminate;
  destruct (String.compare a c) eqn:E3; auto;
  exfalso; apply (compare_not_gt_trans a b c); congruence.
Qed.

Lemma str_le_not (a b : string) : String.leb a b = false -> str_le b a.
Proof.
  intros H; destruct (String.leb_total a b); [congruence | assumption].
Qed.

Lemma insert_sorted_perm (x : string) (l : list string) :
  Permutation (x :: l) (insert_sorted x l).
Proof.
  induction l as [|y l IH]; cbn; [reflexivity|].
  destruct (String.leb x y); [reflexivity|].
  rewrite perm_swap. constructor. exact IH.
Qed.

Lemma sorted_perm (l : list string) : Permutation l (sorted l).
Proof.
  induction l as [|x l IH]; cbn; [constructor|].
  rewrite <- insert_sorted_perm. constructor. exact IH.
Qed.

Lemma insert_sorted_Sorted (x : string) (l : list string) :
  Sorted str_le l -> Sorted str_le (insert_sorted x l).
Proof.
  induction 1 as [|y l Hs IH Hd]; cbn.
  - repeat constructor.
  - destruct (String.leb x y) eqn:E.
    + constructor; [constructor; assumption | constructor; exact E].
    + constructor; [exact IH|].
      destruct l as [|z l]; cbn; [constructor; apply str_le_not; exact E|].
      inversion Hd; subst.
      destruct (String.leb x z); constructor; [apply str_le_not; exact E | assumption].
Qed.

Lemma sorted_Sorted (l : list string) : Sorted str_le (sorted l).
Proof.
  induction l as [|x l IH]; cbn; [constructor|].
  apply insert_sorted_Sorted, IH.
Qed.

Lemma Sorted_perm_unique (l1 l2 : list string) :
  Sorted str_le l1 -> Sorted str_le l2 -> Permutation l1 l2 -> l1 = l2.
Proof.
  intros H1 H2.
  apply Sorted_StronglySorted in H1; [|intros ???; apply str_le_trans].
  apply Sorted_StronglySorted in H2; [|intros ???; apply str_le_trans].
  revert l2 H2; induction H1 as [|a l1 Hs1 IH Hall1]; intros l2 H2 Hp.
  - symmetry; apply Permutation_nil, Hp.
  - destruct H2 as [|b l2 Hs2 Hall2].
    + apply Permutation_sym, Permutation_nil in Hp; discriminate.
    + assert (a = b) as <-.
      { assert (Ha : In a (b :: l2)) by (eapply Permutation_in; [exact Hp | left; reflexivity]).
        assert (Hb : In b (a :: l1)) by (eapply Permutation_in; [symmetry; exact Hp | left; reflexivity]).
        destruct Ha as [->|Ha]; [reflexivity|].
        destruct Hb as [->|Hb]; [reflexivity|].
        apply String.leb_antisym.
        - rewrite Forall_forall in Hall1; apply Hall1, Hb.
        - rewrite Forall_forall in Hall2; apply Hall2, Ha. }
      f_equal. apply IH; [exact Hs2|]. eapply Permutation_cons_inv; exact Hp.
Qed.

Lemma sorted_perm_eq (l1 l2 : list string) :
  Permutation l1 l2 -> sorted l1 = sorted l2.
Proof.
  intros Hp. apply Sorted_perm_unique; try apply sorted_Sorted.
  rewrite <- !sorted_perm. exact Hp.
Qed.

(** C1 (amended): when the pattern size parses (Python 2 [int], see
    [py_int]), the driver calls at most one of
    the five routines, and only the first of -live, -mono, -stereo, -undistort,
    -undistort_stereo whose flag is set, where -mono counts only with a
    non-empty value; it does call it once the calibration files its branch
    reads have loaded; with none of them set, or with a -rows/-cols value that
    is not an integer, no routine is called. *)
Lemma main_dispatch_order (env : Env) (args : Args) :
  let t := fst (main env args) in
  (routines t = [] \/ exists r, routines t = [r] /\ truthy_choice args = Some r) /\
  (truthy_choice args = None -> routines t = []) /\
  (snd (pattern_size args) = None -> routines t = []) /\
  (forall r, truthy_choice args = Some r -> snd (pattern_size args) <> None ->
     forallb (fun n => negb (load_fails env n)) (inputs_of r) = true ->
     routines t = [r]).
Proof.
  destruct args as [lv rw cl dbg mn st out lf rt ud uds]; cbn.
  unfold truthy_choice, load_fails; unfold_main; cbn.
  split_matches; repeat split; intros;
    repeat match goal with H : Some _ = Some _ |- _ => injection H as H; subst end;
    split_matches;
    repeat match goal with H : Some _ = Some _ |- _ => injection H as H; subst end;
    simpl in *; try congruence;
    first [ left; reflexivity | right; eexists; split; reflexivity | reflexivity ].
Qed.

(** C1 counterexample: with -mono given an empty value and -stereo, the -mono flag is given but the
    stereo calibration is dispatched; with [-live -rows abc] -live is given but
    nothing is dispatched. *)
Lemma main_dispatch_flag_set_not_taken :
  routines (fst (main env_ok args_empty_mono_stereo)) = [RStereo] /\
  spec_choice args_empty_mono_stereo = Some RMono /\
  routines (fst (main env_ok args_bad_rows_live)) = [] /\
  spec_choice args_bad_rows_live = Some RLive.
Proof. vm_compute. repeat split. Qed.

(** C2: the only files the driver opens for writing are the four [.pkl] files,
    each one receives a pickle dump, at most one is written per run; in -mono
    mode the file is the one selected by -output, else -left, else -right
    (none without a save flag), written when the run completes; in -stereo
    mode [stereo-calibration.pkl] is written only with -output; the other
    modes write nothing. *)
Lemma main_persisted_files (env : Env) (args : Args) :
  let t := fst (main env args) in
  (forall n, In n (written t) -> In n pkl_files) /\
  (forall n, In (EvOpenWrite n) t -> exists o, In (EvPickleDump n o) t) /\
  (length (written t) <= 1)%nat /\
  (live args = false -> py_truthy (mono args) = true ->
     incl (written t) (mono_target args) /\
     (snd (main env args) = Some tt -> written t = mono_target args)) /\
  (live args = false -> py_truthy (mono args) = false -> stereo args = true ->
     incl (written t) (if output args then ["stereo-calibration.pkl"%string] else []) /\
     (snd (main env args) = Some tt ->
        written t = if output args then ["stereo-calibration.pkl"%string] else [])) /\
  (live args = true \/ (py_truthy (mono args) = false /\ stereo args = false) ->
     written t = []).
Proof.
  destruct args as [lv rw cl dbg mn st out lf rt ud uds]; cbn.
  unfold mono_target; unfold_main; cbn.
  split_matches; repeat split; intros; clean_some; simpl in *;
    try congruence; try lia;
    repeat match goal with
    | H : _ \/ _ |- _ => destruct H as [H|H]
    | H : _ /\ _ |- _ => destruct H
    | H : False |- _ => destruct H
    | H : EvOpenWrite _ = _ |- _ => injection H as H; subst
    | H : _ = EvOpenWrite _ |- _ => discriminate H
    | H : EvOpenWrite _ = _ |- _ => discriminate H
    end; subst; simpl; try congruence;
    try (intros ? Hin; simpl in Hin; tauto);
    eauto 8.
Qed.

Lemma routines_at_most_one (env : Env) (args : Args) :
  (length (routines (fst (main env args))) <= 1)%nat.
Proof.
  destruct args as [lv rw cl dbg mn st out lf rt ud uds]; cbn.
  unfold_main; cbn. split_matches; cbn; lia.
Qed.

Lemma main_no_recovery_driver (env : Env) (args : Args) :
  let t := fst (main env args) in
  (live args = false -> py_truthy (mono args) = false -> stereo args = true ->
     load_fails env "camera-calibration-left.pkl" || load_fails env "camera-calibration-right.pkl" = true ->
     snd (main env args) = None /\ ~ In RStereo (routines t)) /\
  (live args = false -> py_truthy (mono args) = false -> stereo args = false ->
     undistort args = true -> load_fails env "camera-calibration.pkl" = true ->
     snd (main env args) = None /\ ~ In RUndistort (routines t)) /\
  (live args = false -> py_truthy (mono args) = false -> stereo args = false ->
     undistort args = false -> undistort_stereo args = true ->
     load_fails env "camera-calibration-left.pkl" || load_fails env "camera-calibration-right.pkl"
       || load_fails env "stereo-calibration.pkl" = true ->
     snd (main env args) = None /\ ~ In RUndistortStereo (routines t)) /\
  (forall ps, live args = false -> py_truthy (mono args) = true ->
     snd (pattern_size args) = Some ps ->
     lib_camera_calibration env (sorted (glob_glob env (mono_value (mono args)))) ps (debug args) = None ->
     snd (main env args) = None /\ written t = []).
Proof.
  destruct args as [lv rw cl dbg mn st out lf rt ud uds]; cbn.
  unfold load_fails; unfold_main; cbn.
  split_matches; repeat split; intros; clean_some; split_matches; clean_some;
    simpl in *; try congruence; try tauto;
    intros H; repeat destruct H as [H|H]; discriminate.
Qed.

(** C9: the pattern size is [(int(rows), int(cols))] with the defaults 15 and
    10, [int] being Python 2's (modelled by [py_int]); a -rows or -cols value
    that [int] rejects makes the run raise before
    any routine is called; the routines receive exactly this pattern size. *)
Lemma pattern_size_ints (env : Env) (args : Args) :
  fst (pattern_size args) = [] /\
  snd (pattern_size args) =
    match arg_int (rows args) 15, arg_int (cols args) 10 with
    | Some r, Some c => Some (r, c)
    | _, _ => None
    end /\
  (rows args = None -> cols args = None -> pattern_size args = ([], Some (15, 10)%Z)) /\
  (arg_int (rows args) 15 = None \/ arg_int (cols args) 10 = None -> main env args = ([], None)) /\
  (forall p, In (EvVmbStereoViewer p) (fst (main env args)) \/
             (exists f d, In (EvCameraCalibration f p d) (fst (main env args))) ->
     arg_int (rows args) 15 = Some (fst p) /\ arg_int (cols args) 10 = Some (snd p)).
Proof.
  destruct args as [lv rw cl dbg mn st out lf rt ud uds]; cbn.
  unfold arg_int; unfold_main; cbn.
  split_matches; repeat split; intros; clean_some; simpl in *; try congruence;
    repeat match goal with
    | H : _ \/ _ |- _ => destruct H as [H|H]
    | H : exists _, _ |- _ => destruct H
    | H : False |- _ => destruct H
    | H : EvVmbStereoViewer _ = _ |- _ => injection H as H; subst
    | H : EvCameraCalibration _ _ _ = _ |- _ => injection H as H; subst
    | H : _ = _ |- _ => discriminate H
    end; intuition congruence.
Qed.

Lemma main_camera_calibration_inv (env : Env) (args : Args) files p d :
  In (EvCameraCalibration files p d) (fst (main env args)) ->
  live args = false /\ py_truthy (mono args) = true /\
  files = sorted (glob_glob env (mono_value (mono args))) /\
  snd (pattern_size args) = Some p /\ d = debug args.
Proof.
  destruct args as [lv rw cl dbg mn st out lf rt ud uds]; cbn.
  unfold_main; cbn.
  split_matches; clean_some; simpl in *; intros Hin;
    repeat match goal with
    | H : _ \/ _ |- _ => destruct H as [H|H]
    | H : False |- _ => destruct H
    | H : EvCameraCalibration _ _ _ = _ |- _ => injection H as <- <- <-
    | H : _ = EvCameraCalibration _ _ _ |- _ => discriminate H
    end; auto.
Qed.

Lemma bind_fst_some {A B} (t : list Event) (x : A) (k : A -> M B) :
  fst (bind (t, Some x) k) = t ++ fst (k x).
Proof. unfold bind; destruct (k x); reflexivity. Qed.

Lemma pattern_size_trace (args : Args) : fst (pattern_size args) = [].
Proof.
  unfold pattern_size, int_arg, of_option, bind, ret, raise; split_matches; reflexivity.
Qed.

Lemma main_camera_calibration_called (env : Env) (args : Args) p :
  live args = false -> py_truthy (mono args) = true -> snd (pattern_size args) = Some p ->
  In (EvCameraCalibration (sorted (glob_glob env (mono_value (mono args)))) p (debug args))
     (fst (main env args)).
Proof.
  intros Hl Hm Hp. unfold main. rewrite Hl, Hm.
  pose proof (pattern_size_trace args) as Ht.
  destruct (pattern_size args) as [t0 [p0|]]; cbn in Hp, Ht; [|discriminate].
  injection Hp as <-; subst t0.
  rewrite bind_fst_some. cbv beta iota zeta.
  unfold emit at 1. rewrite bind_fst_some. left; reflexivity.
Qed.

(** C10: in -mono mode the file list handed to [CameraCalibration] is the
    sorted glob result, and a glob that enumerates the same files in another
    order leads to the same call. *)
Lemma main_mono_files (env env2 : Env) (args : Args) (files : list string) (p : Z * Z) (d : bool)
  (H : In (EvCameraCalibration files p d) (fst (main env args))) :
  files = sorted (glob_glob env (mono_value (mono args))) /\
  Sorted str_le files /\
  Permutation (glob_glob env (mono_value (mono args))) files /\
  (Permutation (glob_glob env2 (mono_value (mono args))) (glob_glob env (mono_value (mono args))) ->
     In (EvCameraCalibration files p d) (fst (main env2 args))).
Proof.
  apply main_camera_calibration_inv in H as (Hl & Hm & -> & Hp & ->).
  split; [reflexivity|]. split; [apply sorted_Sorted|]. split; [apply sorted_perm|].
  intros Hperm. rewrite <- (sorted_perm_eq _ _ Hperm).
  apply main_camera_calibration_called; assumption.
Qed.

Lemma init_inv : usb_inv init.
Proof.
  unfold usb_inv, init; cbn; repeat split; intros; try discriminate; try tauto; try lia.
Qed.

Lemma step_inv (s s' : UsbState) (l : Label) :
  usb_inv s -> step s l = Some s' -> usb_inv s'.
Proof.
  destruct s as [img nf rn rl pc pd em hd sh gp].
  unfold usb_inv; cbn.
  intros (I1 & I2 & I3 & I4 & I5 & I6 & I7 & I8 & I9) Hs.
  destruct l as [| [|] | | | | | |]; destruct pc; cbn in Hs; try discriminate;
  repeat match type of Hs with
    | context [match ?x with _ => _ end] => destruct x eqn:?
    end; try discriminate;
  injection Hs as <-; unfold in_flight in *; cbn in *;
  repeat split; intros; subst; cbn in *;
  repeat match goal with
    | H : _ \/ _ |- _ => destruct H
    | H : Some _ = Some _ |- _ => injection H as <-
    | H : In _ (_ ++ _) |- _ => apply in_app_or in H
    | H : In _ [_] |- _ => destruct H as [<-|[]]
    | H : In _ [] |- _ => destruct H
    end; cbn in *;
  try solve [ intuition (try discriminate; try congruence; try lia) ];
  try (specialize (I3 _ eq_refl); lia);
  try (specialize (I2 _ ltac:(eassumption)); lia);
  try (right; f_equal; f_equal; lia);
  try (destruct (I7 eq_refl) as [E|E]; [discriminate|];
       injection E as E; subst; cbn; f_equal; f_equal; lia).
Qed.

Lemma run_inv (ls : list Label) : forall s s',
  usb_inv s -> run s ls = Some s' -> usb_inv s'.
Proof.
  induction ls as [|l ls IH]; cbn; intros s s' Hi Hr.
  - injection Hr as <-; exact Hi.
  - destruct (step s l) as [s1|] eqn:E; [|discriminate].
    eapply IH; [eapply step_inv; eassumption | exact Hr].
Qed.

Lemma reachable_inv (ls : list Label) (s : UsbState) :
  run init ls = Some s -> usb_inv s.
Proof. apply run_inv, init_inv. Qed.

Lemma run_app (s : UsbState) (l1 l2 : list Label) :
  run s (l1 ++ l2) = match run s l1 with Some s1 => run s1 l2 | None => None end.
Proof.
  revert s; induction l1 as [|l l1 IH]; intros s; cbn; [reflexivity|].
  destruct (step s l); [apply IH | reflexivity].
Qed.

(** C3 (amended): on every interleaving of the USB display, the capture thread
    converts each frame it reads and then calls the callback once for it
    (callbacks equal frames read, up to the frame in progress); each callback
    queues one payload-free signal, each handled signal displays whatever
    frame [camera.image] holds at that moment, so every shown frame was
    captured, but a frame may be shown several times or never. *)
Theorem usb_display_pipeline (ls : list Label) (s : UsbState)
  (H : run init ls = Some s) :
  next_frame s = emitted s + in_flight s /\
  (cap_pc s = AtCallback -> image s = Some (mkFrame (next_frame s - 1) true)) /\
  emitted s = handled s + pending s /\
  (forall f, In f (shown s) -> frame_no f < next_frame s) /\
  (forall s', step s LUpdate = Some s' ->
     shown s' = shown s ++ match image s with Some f => [f] | None => [] end /\
     handled s' = S (handled s) /\ image s' = image s).
Proof.
  pose proof (reachable_inv ls s H) as (I1 & I2 & I3 & I4 & I5 & I6 & I7 & I8 & I9).
  split; [exact I5|]. split; [exact I6|]. split; [exact I1|]. split; [exact I2|].
  intros s' Hs. destruct s as [img nf rn rl pc pd em hd sh gp]; cbn in *.
  unfold step in Hs; destruct gp, pd; destruct pc; try discriminate;
    injection Hs as <-; cbn; auto.
Qed.

(** Frames numbered above [k] only. *)
Lemma step_after (k : nat) (s s' : UsbState) (l : Label) :
  (forall g, image s = Some g -> k < frame_no g) -> k < next_frame s ->
  step s l = Some s' ->
  ((forall g, image s' = Some g -> k < frame_no g) /\ k < next_frame s') /\
  (forall n, In n (map frame_no (shown s')) -> In n (map frame_no (shown s)) \/ k < n).
Proof.
  intros Hi Hn Hs.
  destruct s as [img nf rn rl pc pd em hd sh gp]; cbn in *.
  step_cases Hs; subst;
  (split; [split; [intros g Hg|]|intros m Hin]);
  repeat match goal with
    | H : Some _ = Some _ |- _ => injection H as <-
    | H : None = Some _ |- _ => discriminate H
    end; cbn in *; try lia; auto;
  try (rewrite map_app, in_app_iff in Hin; cbn in Hin;
       destruct Hin as [Hin|[<-|[]]]; auto);
  try (right; apply Hi; reflexivity);
  try (apply Hi in Heqo; lia);
  rewrite app_nil_r in Hin; auto.
Qed.

Lemma run_after (k : nat) (ls : list Label) : forall s s',
  (forall g, image s = Some g -> k < frame_no g) -> k < next_frame s ->
  ~ In k (map frame_no (shown s)) ->
  run s ls = Some s' -> ~ In k (map frame_no (shown s')).
Proof.
  induction ls as [|l ls IH]; cbn; intros s s' Hi Hn Hsh Hr.
  - injection Hr as <-; exact Hsh.
  - destruct (step s l) as [s1|] eqn:E; [|discriminate].
    destruct (step_after k s s1 l Hi Hn E) as [[Hi1 Hn1] Hsh1].
    apply (IH s1 s' Hi1 Hn1); [|exact Hr].
    intros Hin. destruct (Hsh1 k Hin) as [Hin'|Hlt]; [exact (Hsh Hin')|lia].
Qed.

(** C5: a successful read overwrites [UsbCamera.image] with the new frame
    whatever the pending signals and the displayed frames are, and a frame
    overwritten before it was displayed is never displayed afterwards. *)
Theorem usb_read_overwrites :
  (forall s, cap_pc s = AtRead ->
     exists s', step s (LRead true) = Some s' /\
       image s' = Some (mkFrame (next_frame s) false) /\
       pending s' = pending s /\ shown s' = shown s) /\
  (forall ls s s1 f ls' s2,
     run init ls = Some s -> step s (LRead true) = Some s1 -> image s = Some f ->
     ~ In (frame_no f) (map frame_no (shown s1)) ->
     run s1 ls' = Some s2 -> ~ In (frame_no f) (map frame_no (shown s2))).
Proof.
  split.
  - intros s Hpc. unfold step; rewrite Hpc. eexists; split; [reflexivity|]. cbn; auto.
  - intros ls s s1 f ls' s2 Hr Hs Hf Hn1 Hr2.
    pose proof (reachable_inv ls s Hr) as (_ & _ & I3 & _).
    specialize (I3 f Hf).
    destruct s as [img nf rn rl pc pd em hd sh gp]; cbn in *.
    unfold step in Hs; cbn in Hs; destruct pc; try discriminate.
    injection Hs as <-.
    eapply run_after; [| | exact Hn1 | exact Hr2]; cbn.
    + intros g Hg; injection Hg as <-; cbn; lia.
    + lia.
Qed.

Lemma step_stopped (s s' : UsbState) (l : Label) :
  running s = false -> step s l = Some s' ->
  running s' = false /\
  read_budget s' + (match l with LRead _ => 1 | _ => 0 end) <= read_budget s.
Proof.
  intros Hr Hs. destruct s as [img nf rn rl pc pd em hd sh gp]; cbn in *; subst rn.
  unfold read_budget; step_cases Hs; split; auto; lia.
Qed.

Lemma run_stopped_reads (ls : list Label) : forall s s',
  running s = false -> run s ls = Some s' -> reads ls <= read_budget s.
Proof.
  induction ls as [|l ls IH]; cbn; intros s s' Hr Hrun; [lia|].
  destruct (step s l) as [s1|] eqn:E; [|discriminate].
  destruct (step_stopped s s1 l Hr E) as [Hr1 Hb].
  specialize (IH s1 s' Hr1 Hrun).
  unfold reads in *; destruct l; cbn in *; lia.
Qed.

(** C6 (amended): closeEvent's [Stop] sets running to false and the GUI then
    waits in [join]; once running is false the capture thread starts at most
    one more camera read; the camera is released exactly when [run] returns
    normally; the close is accepted only after the capture thread has ended;
    and unless the iteration in progress raises, the thread leaves the loop
    and releases the camera within five steps. *)
Theorem usb_shutdown :
  (forall s s', step s LClose = Some s' ->
     gui_pc s = GuiRunning /\ running s' = false /\ gui_pc s' = GuiJoining /\
     cap_pc s' = cap_pc s /\ released s' = released s) /\
  (forall s ls s', running s = false -> run s ls = Some s' -> reads ls <= 1) /\
  (forall ls s, run init ls = Some s -> (released s = true <-> cap_pc s = Finished)) /\
  (forall ls s, run init ls = Some s -> gui_pc s = GuiClosed ->
     running s = false /\ (cap_pc s = Finished \/ cap_pc s = Crashed)) /\
  (forall ls s, run init ls = Some s -> running s = false -> cap_pc s <> Crashed ->
     ~ (cap_pc s = AtConvert /\ image s = None) ->
     exists ls' s', (length ls' <= 5)%nat /\ ~ In (LRead false) ls' /\
       run s ls' = Some s' /\ cap_pc s' = Finished /\ released s' = true).
Proof.
  split; [|split; [|split; [|split]]].
  - intros s s' Hs. destruct s as [img nf rn rl pc pd em hd sh gp]; cbn in *.
    unfold step in Hs; destruct gp; destruct pc; try discriminate; injection Hs as <-; cbn; auto 6.
  - intros s ls s' Hr Hrun. pose proof (run_stopped_reads ls s s' Hr Hrun).
    unfold read_budget in *; destruct (cap_pc s); lia.
  - intros ls s Hr. apply (reachable_inv ls s Hr).
  - intros ls s Hr Hg. pose proof (reachable_inv ls s Hr) as (_&_&_&_&_&_&_&I8&_).
    destruct (I8 Hg) as [Hrn Hd]; split; [exact Hrn|].
    destruct (cap_pc s); cbn in Hd; try discriminate; auto.
  - intros ls s Hr Hrn Hc Hnc.
    pose proof (reachable_inv ls s Hr) as (_&_&_&I4&_).
    destruct s as [img nf rn rl pc pd em hd sh gp]; cbn in *; subst rn.
    destruct pc.
    + exists [LTest; LRelease]; eexists; split; [cbn; lia|]; split;
        [cbn; intuition discriminate | split; [reflexivity | cbn; auto]].
    + exists [LRead true; LConvert; LCallback; LTest; LRelease]; eexists; split; [cbn; lia|]; split;
        [cbn; intuition discriminate | split; [reflexivity | cbn; auto]].
    + destruct img as [f|]; [|tauto].
      exists [LConvert; LCallback; LTest; LRelease]; eexists; split; [cbn; lia|]; split;
        [cbn; intuition discriminate | split; [reflexivity | cbn; auto]].
    + exists [LCallback; LTest; LRelease]; eexists; split; [cbn; lia|]; split;
        [cbn; intuition discriminate | split; [reflexivity | cbn; auto]].
    + exists [LRelease]; eexists; split; [cbn; lia|]; split;
        [cbn; intuition discriminate | split; [reflexivity | cbn; auto]].
    + exists []; eexists; split; [cbn; lia|]; split;
        [cbn; intuition discriminate | split; [reflexivity | cbn; split; [reflexivity|]]].
      apply I4; reflexivity.
    + tauto.
Qed.

(** C6 counterexample: the widget is closed while the capture thread is about
    to read, the read fails, the conversion raises, the join returns and the
    close is accepted, and the camera was never released. *)
Lemma usb_close_without_release :
  match run init close_on_failed_read with
  | Some s => running s = false /\ gui_pc s = GuiClosed /\ cap_pc s = Crashed /\
              released s = false
  | None => False
  end.
Proof. vm_compute. repeat split. Qed.

Lemma step_dying (s s' : UsbState) (l : Label) :
  thread_dying s -> step s l = Some s' ->
  thread_dying s' /\ emitted s' = emitted s /\ released s' = released s.
Proof.
  unfold thread_dying; intros Hd Hs.
  destruct s as [img nf rn rl pc pd em hd sh gp]; cbn in *.
  destruct Hd as [[-> ->]| ->]; step_cases Hs; auto.
Qed.

Lemma run_dying (ls : list Label) : forall s s',
  thread_dying s -> run s ls = Some s' ->
  thread_dying s' /\ emitted s' = emitted s /\ released s' = released s.
Proof.
  induction ls as [|l ls IH]; cbn; intros s s' Hd Hr.
  - injection Hr as <-; auto.
  - destruct (step s l) as [s1|] eqn:E; [|discriminate].
    destruct (step_dying s s1 l Hd E) as (Hd1 & He1 & Hr1).
    destruct (IH s1 s' Hd1 Hr) as (? & ? & ?). split; [assumption|]. split; congruence.
Qed.

Lemma crashed_absorbing (ls : list Label) (s s' : UsbState) :
  cap_pc s = Crashed -> run s ls = Some s' -> cap_pc s' = Crashed.
Proof.
  intros Hc Hr. destruct (run_dying ls s s' (or_intror Hc) Hr) as ([[Hc' _]|Hc'] & _).
  - (* a crashed thread never returns to AtConvert *)
    exfalso. revert s Hc Hr Hc'. induction ls as [|l ls IH]; cbn; intros s Hc Hr Hc'.
    + injection Hr as <-; congruence.
    + destruct (step s l) as [s1|] eqn:E; [|discriminate].
      apply (IH s1); [|exact Hr|exact Hc'].
      destruct s as [img nf rn rl pc pd em hd sh gp]; cbn in *; subst pc.
      step_cases E; reflexivity.
  - exact Hc'.
Qed.

(** C4: the driver performs no error handling.  A failed open or unpickle of a
    calibration file in -stereo, -undistort or -undistort_stereo mode ends the
    run with the exception and the library routine is never called; in -mono
    mode a raising calibration call leaves no file written; each library
    routine is called at most once per run (no retry); and a capture thread
    ended by an exception never runs again. *)
Theorem main_no_recovery (env : Env) (args : Args) :
  let t := fst (main env args) in
  ((live args = false -> py_truthy (mono args) = false -> stereo args = true ->
      load_fails env "camera-calibration-left.pkl" || load_fails env "camera-calibration-right.pkl" = true ->
      snd (main env args) = None /\ ~ In RStereo (routines t)) /\
   (live args = false -> py_truthy (mono args) = false -> stereo args = false ->
      undistort args = true -> load_fails env "camera-calibration.pkl" = true ->
      snd (main env args) = None /\ ~ In RUndistort (routines t)) /\
   (live args = false -> py_truthy (mono args) = false -> stereo args = false ->
      undistort args = false -> undistort_stereo args = true ->
      load_fails env "camera-calibration-left.pkl" || load_fails env "camera-calibration-right.pkl"
        || load_fails env "stereo-calibration.pkl" = true ->
      snd (main env args) = None /\ ~ In RUndistortStereo (routines t)) /\
   (forall ps, live args = false -> py_truthy (mono args) = true ->
      snd (pattern_size args) = Some ps ->
      lib_camera_calibration env (sorted (glob_glob env (mono_value (mono args)))) ps (debug args) = None ->
      snd (main env args) = None /\ written t = [])) /\
  (length (routines t) <= 1)%nat /\
  (forall ls s s', cap_pc s = Crashed -> run s ls = Some s' -> cap_pc s' = Crashed).
Proof.
  split; [apply main_no_recovery_driver|].
  split; [apply routines_at_most_one|].
  intros ls s s'; apply crashed_absorbing.
Qed.

(** C8 (amended): the read's success flag is not looked at (both outcomes go on
    to the conversion); after a failed read the image is None, the conversion
    raises and kills the capture thread, the callback is not called again and
    the camera is never released. *)
Theorem usb_failed_read_kills_thread :
  (forall s b s1, step s (LRead b) = Some s1 -> cap_pc s1 = AtConvert) /\
  (forall ls s s1, run init ls = Some s -> step s (LRead false) = Some s1 ->
     image s1 = None /\
     (forall s2, step s1 LConvert = Some s2 -> cap_pc s2 = Crashed) /\
     (forall ls' s2, run s1 ls' = Some s2 ->
        emitted s2 = emitted s /\ released s2 = false /\
        (cap_pc s2 = AtConvert \/ cap_pc s2 = Crashed))).
Proof.
  split.
  - intros s b s1 Hs. destruct s as [img nf rn rl pc pd em hd sh gp]; cbn in *.
    destruct b; step_cases Hs; reflexivity.
  - intros ls s s1 Hr Hs.
    pose proof (reachable_inv ls s Hr) as (_&_&_&I4&_).
    destruct s as [img nf rn rl pc pd em hd sh gp]; cbn in *.
    unfold step in Hs; destruct pc; try discriminate; injection Hs as <-; cbn.
    assert (rl = false) as -> by (destruct rl; [destruct I4 as [I4 _]; specialize (I4 eq_refl); discriminate | reflexivity]).
    split; [reflexivity|]. split.
    + intros s2 Hs2; unfold step in Hs2; cbn in Hs2; injection Hs2 as <-; reflexivity.
    + intros ls' s2 Hr2.
      apply run_dying in Hr2 as (Hd & He & Hrl); [|left; split; reflexivity].
      cbn in *. split; [exact He|]. split; [exact Hrl|].
      destruct Hd as [[? _]|?]; auto.
Qed.

(** C8 counterexample: it is not the case that the frame callback runs after a
    failed read. *)
Lemma usb_failed_read_no_callback :
  ~ (forall ls s s1, run init ls = Some s -> step s (LRead false) = Some s1 ->
       exists ls' s2, run s1 ls' = Some s2 /\ emitted s1 < emitted s2).
Proof.
  intros H.
  destruct (H [LTest] _ _ eq_refl eq_refl) as (ls' & s2 & Hr & Hlt).
  apply run_dying in Hr as (_ & He & _); [|left; split; reflexivity].
  rewrite He in Hlt; lia.
Qed.

(** C3 counterexample: two frames are captured and signalled before the GUI
    handles either signal; both signals are consumed and frame 0 is never
    displayed (frame 1 is displayed twice). *)
Lemma usb_frame_never_shown :
  match run init two_frames_then_updates with
  | Some s => pending s = 0 /\ emitted s = 2 /\ ~ In 0 (map frame_no (shown s)) /\
              map frame_no (shown s) = [1; 1]
  | None => False
  end.
Proof. vm_compute. split; [reflexivity|]. split; [reflexivity|]. split; [|reflexivity].
  intros [H|[H|[]]]; discriminate. Qed.

Lemma lookup_option_in (o : string) (a : ArgAction) (l : list (string * ArgAction)) :
  lookup_option o l = Some a -> In (o, a) l.
Proof.
  induction l as [|[s b] l IH]; cbn; [discriminate|].
  destruct (String.eqb_spec s o) as [->|_]; [intros [= ->]; left; reflexivity|].
  intros H; right; apply IH, H.
Qed.

Lemma option_tuples_in (arg o : string) (a : ArgAction) (e : option string) :
  In (o, a, e) (option_tuples arg) -> In (o, a) option_string_actions.
Proof.
  unfold option_tuples.
  destruct arg as [|c1 [|c2 r]]; [cbn; tauto|cbn; tauto|].
  destruct (is_dash c1 && is_dash c2).
  - destruct (split_eq _) as [[p x]|]; intros H; apply in_flat_map in H as ([o' a'] & Hin & H);
      destruct (String.prefix _ o');
      first [destruct H as [[= <- <- _]|[]]; exact Hin | destruct H].
  - destruct (is_dash c1); [|intros []].
    intros H; apply in_flat_map in H as ([o' a'] & Hin & H).
    destruct (String.eqb o' _); [destruct H as [[= <- <- _]|[]]; exact Hin|].
    destruct (String.prefix _ o');
      first [destruct H as [[= <- <- _]|[]]; exact Hin | destruct H].
Qed.

Lemma prefix_ok_spec (o p : string) :
  prefix_ok o p = true ->
  (prefix_candidates p = [o] -> exists a, parse_optional p = Matched o a None) /\
  (2 <= length (prefix_candidates p) -> ~ In p option_names ->
     exists l, parse_optional p = Ambiguous l).
Proof.
  unfold prefix_ok; destruct (prefix_candidates p) as [|x [|y l]]; [discriminate| |].
  - intros H; split; [|cbn; lia].
    intros [= <-]. apply andb_true_iff in H as [_ H].
    destruct (parse_optional p) as [|o' a [e|]|l|]; try discriminate.
    apply String.eqb_eq in H; subst; eexists; reflexivity.
  - intros H; split; [discriminate|]. intros _ Hn.
    apply orb_true_iff in H as [H|H].
    + apply existsb_exists in H as (q & Hq & E); apply String.eqb_eq in E; subst; contradiction.
    + destruct (parse_optional p) as [| | l'|]; try discriminate. eexists; reflexivity.
Qed.

(** C7 (amended): the parser's option strings are the eleven declared flags
    plus argparse's own -h/--help; -rows, -cols and -mono take one value and
    the other declared flags are store_true; each declared flag is recognised
    as itself; whatever argparse's option lookup recognises is one of these
    option strings; [-rows=V], [-cols=V] and [-mono=V] are matched to the flag
    with the explicit argument V; an abbreviation of a flag (two characters or
    more) is resolved to that flag when no other option string starts with it,
    and is reported ambiguous when several do and it is not itself an option
    string. *)
Theorem parser_accepted_options :
  map fst option_string_actions = ["-h"; "--help"]%string ++ spec_flags /\
  (forall o a, In (o, a) option_string_actions ->
     (nargs a = 1 <-> In o ["-rows"; "-cols"; "-mono"]%string) /\
     (a = ActStoreTrue <-> In o spec_flags /\ ~ In o ["-rows"; "-cols"; "-mono"]%string)) /\
  (forall o, In o spec_flags -> exists a, parse_optional o = Matched o a None) /\
  (forall arg o a e, parse_optional arg = Matched o a e -> In (o, a) option_string_actions) /\
  (forall o v, In o ["-rows"; "-cols"; "-mono"]%string ->
     parse_optional (o ++ String "=" v) = Matched o ActStore (Some v)) /\
  (forall o n, In o spec_flags -> 2 <= n < String.length o ->
     let p := String.substring 0 n o in
     (prefix_candidates p = [o] -> exists a, parse_optional p = Matched o a None) /\
     (2 <= length (prefix_candidates p) -> ~ In p option_names ->
        exists l, parse_optional p = Ambiguous l)).
Proof.
  split; [reflexivity|]. split; [|split; [|split; [|split]]].
  - intros o a H. cbn in H.
    repeat (destruct H as [H|H]; [injection H as <- <-; cbn; intuition (try discriminate; try lia);
                                  repeat (match goal with H : _ \/ _ |- _ => destruct H end);
                                  try discriminate; try contradiction|]).
    destruct H.
  - intros o H. cbn in H.
    repeat (destruct H as [H|H]; [subst o; eexists; reflexivity|]). destruct H.
  - intros arg o a e. unfold parse_optional.
    destruct arg as [|c r]; [discriminate|].
    destruct (negb (is_dash c)); [discriminate|].
    destruct (lookup_option _ _) as [b|] eqn:E1.
    + intros [= <- <- _]. apply lookup_option_in, E1.
    + destruct (_ =? 1)%nat; [discriminate|].
      destruct (split_eq _) as [[p x]|] eqn:E2.
      * destruct (lookup_option p _) as [b|] eqn:E3.
        -- intros [= <- <- _]. apply lookup_option_in, E3.
        -- destruct (option_tuples _) as [|[[o1 a1] e1] [|t2 l2]] eqn:E4;
             try (destruct (is_negative_number _); [discriminate|];
                  destruct (has_space _); discriminate);
             try discriminate.
           intros [= <- <- _]. eapply option_tuples_in; rewrite E4; left; reflexivity.
      * destruct (option_tuples _) as [|[[o1 a1] e1] [|t2 l2]] eqn:E4;
          try (destruct (is_negative_number _); [discriminate|];
               destruct (has_space _); discriminate);
          try discriminate.
        intros [= <- <- _]. eapply option_tuples_in; rewrite E4; left; reflexivity.
  - intros o v H; cbn in H.
    repeat (destruct H as [<-|H]; [reflexivity|]); destruct H.
  - intros o n H Hn p; apply prefix_ok_spec.
    assert (Hall : forallb (fun o => forallb (fun n => prefix_ok o (String.substring 0 n o))
                                             (seq 2 (String.length o - 2))) spec_flags = true)
      by (vm_compute; reflexivity).
    rewrite forallb_forall in Hall; specialize (Hall o H); rewrite forallb_forall in Hall.
    apply Hall, in_seq; lia.
Qed.

(** C7 counterexample: -h, the prefix -o and -rows=5 are accepted although
    they are not among the listed flags. *)
Lemma parser_accepts_unlisted :
  parse_optional "-h" = Matched "-h" ActHelp None /\ ~ In "-h"%string spec_flags /\
  parse_optional "-o" = Matched "-output" ActStoreTrue None /\ ~ In "-o"%string spec_flags /\
  parse_optional "-rows=5" = Matched "-rows" ActStore (Some "5"%string).
Proof.
  split; [reflexivity|]. split; [cbn; intros H; repeat (destruct H as [H|H]; [discriminate|]); exact H|].
  split; [reflexivity|]. split; [cbn; intros H; repeat (destruct H as [H|H]; [discriminate|]); exact H|].
  reflexivity.
Qed.

(** Witness of [main_mono_files]: a glob enumerated as right, left reaches the
    calibration sorted as left, right. *)
Lemma main_mono_files_witness :
  In (EvCameraCalibration ["left.png"; "right.png"]%string (15, 10)%Z false)
     (fst (main env_glob args_mono_glob)) /\
  (["left.png"; "right.png"]%string = sorted (glob_glob env_glob (mono_value (mono args_mono_glob))) /\
   Sorted str_le ["left.png"; "right.png"]%string /\
   Permutation (glob_glob env_glob (mono_value (mono args_mono_glob))) ["left.png"; "right.png"]%string /\
   (Permutation (glob_glob env_ok (mono_value (mono args_mono_glob)))
                (glob_glob env_glob (mono_value (mono args_mono_glob))) ->
    In (EvCameraCalibration ["left.png"; "right.png"]%string (15, 10)%Z false)
       (fst (main env_ok args_mono_glob)))).
Proof.
  split; [vm_compute; left; reflexivity|].
  apply (main_mono_files env_glob env_ok args_mono_glob).
  vm_compute; left; reflexivity.
Defined.

(** Witness of [usb_display_pipeline] after one frame went through. *)
Lemma usb_display_pipeline_witness :
  exists s, run init one_frame_shown = Some s /\
  (next_frame s = emitted s + in_flight s /\
   (cap_pc s = AtCallback -> image s = Some (mkFrame (next_frame s - 1) true)) /\
   emitted s = handled s + pending s /\
   (forall f, In f (shown s) -> frame_no f < next_frame s) /\
   (forall s', step s LUpdate = Some s' ->
      shown s' = shown s ++ match image s with Some f => [f] | None => [] end /\
      handled s' = S (handled s) /\ image s' = image s)).
Proof.
  eexists; split; [vm_compute; reflexivity|].
  apply (usb_display_pipeline one_frame_shown); vm_compute; reflexivity.
Defined.

(* ------------------------------------------------------------------ *)
(** ** Calibration files across runs: the driver's side *)

Lemma main_stereo_call (env : Env) (args : Args) (cl cr : Obj) :
  live args = false -> py_truthy (mono args) = false -> stereo args = true ->
  snd (pattern_size args) <> None ->
  loaded env "camera-calibration-left.pkl" = Some cl ->
  loaded env "camera-calibration-right.pkl" = Some cr ->
  routines (fst (main env args)) = [RStereo] /\
  In (EvStereoCameraCalibration cl cr (debug args)) (fst (main env args)).
Proof.
  destruct args as [lv rw cl0 dbg mn st out lf rt ud uds]; cbn.
  intros -> Hm -> Hp; unfold main; cbn; rewrite Hm; revert Hp.
  unfold loaded; unfold_main; cbn.
  split_matches; intros; clean_some; split_matches; clean_some; simpl in *;
    try congruence; auto.
Qed.

Lemma main_undistort_call (env : Env) (args : Args) (c : Obj) :
  live args = false -> py_truthy (mono args) = false -> stereo args = false ->
  undistort args = true -> snd (pattern_size args) <> None ->
  loaded env "camera-calibration.pkl" = Some c ->
  fst (main env args) = [EvUndistortImages c] /\
  snd (main env args) = (if lib_undistort env c then Some tt else None).
Proof.
  destruct args as [lv rw cl0 dbg mn st out lf rt ud uds]; cbn.
  intros -> Hm -> -> Hp; unfold main; cbn; rewrite Hm; revert Hp.
  unfold loaded; unfold_main; cbn.
  split_matches; intros; clean_some; split_matches; clean_some; simpl in *;
    try congruence; auto.
Qed.

Lemma main_undistort_stereo_call (env : Env) (args : Args) (c1 c2 c3 : Obj) :
  live args = false -> py_truthy (mono args) = false -> stereo args = false ->
  undistort args = false -> undistort_stereo args = true ->
  snd (pattern_size args) <> None ->
  loaded env "camera-calibration-left.pkl" = Some c1 ->
  loaded env "camera-calibration-right.pkl" = Some c2 ->
  loaded env "stereo-calibration.pkl" = Some c3 ->
  fst (main env args) = [EvStereoUndistortImages c1 c2 c3] /\
  snd (main env args) = (if lib_stereo_undistort env c1 c2 c3 then Some tt else None).
Proof.
  destruct args as [lv rw cl0 dbg mn st out lf rt ud uds]; cbn.
  intros -> Hm -> -> -> Hp; unfold main; cbn; rewrite Hm; revert Hp.
  unfold loaded; unfold_main; cbn.
  split_matches; intros; clean_some; split_matches; clean_some; simpl in *;
    try congruence; auto.
Qed.

Lemma main_mono_dumped (env : Env) (args : Args) :
  live args = false -> py_truthy (mono args) = true ->
  snd (main env args) = Some tt ->
  exists ps c,
    snd (pattern_size args) = Some ps /\
    lib_camera_calibration env (sorted (glob_glob env (mono_value (mono args)))) ps (debug args) = Some c /\
    forall n, dumped (fst (main env args)) n =
      (if existsb (String.eqb n) (mono_target args) then Some c else None).
Proof.
  destruct args as [lv rw cl0 dbg mn st out lf rt ud uds]; cbn.
  intros -> Hm; unfold main, mono_target; cbn; rewrite Hm.
  unfold_main; cbn.
  split_matches; intros; clean_some; split_matches; clean_some; cbn in *; try congruence.
  all: do 2 eexists; (split; [reflexivity|]); (split; [eassumption|]);
    intro n; cbn [dumped existsb]; rewrite ?(String.eqb_sym n), ?orb_false_r;
    try reflexivity; destruct (String.eqb _ n); reflexivity.
Qed.

Lemma main_stereo_dumped (env : Env) (args : Args) :
  live args = false -> py_truthy (mono args) = false -> stereo args = true ->
  snd (main env args) = Some tt ->
  exists c1 c2 c,
    loaded env "camera-calibration-left.pkl" = Some c1 /\
    loaded env "camera-calibration-right.pkl" = Some c2 /\
    lib_stereo_calibration env c1 c2 (debug args) = Some c /\
    forall n, dumped (fst (main env args)) n =
      (if output args && String.eqb "stereo-calibration.pkl" n then Some c else None).
Proof.
  destruct args as [lv rw cl0 dbg mn st out lf rt ud uds]; cbn.
  intros -> Hm ->; unfold main; cbn; rewrite Hm.
  unfold loaded; unfold_main; cbn.
  split_matches; intros; clean_some; split_matches; clean_some; cbn in *; try congruence.
  all: do 3 eexists; (split; [first [reflexivity | eassumption]|]);
    (split; [first [reflexivity | eassumption]|]); (split; [eassumption|]);
    intro n; cbn [dumped andb]; try reflexivity; destruct (String.eqb _ n); reflexivity.
Qed.

Lemma loaded_after_run (enc : Obj -> string) (env : Env) (t : list Event) (n : string) :
  loaded (after_run enc env t) n =
  match dumped t n with Some o => pickle_load env (enc o) | None => loaded env n end.
Proof. unfold loaded, after_run; cbn; destruct (dumped t n); reflexivity. Qed.

(* ------------------------------------------------------------------ *)
(** ** More of the USB camera threads: lemmas *)

Lemma StronglySorted_snoc {A} (R : A -> A -> Prop) (l : list A) (x : A) :
  StronglySorted R l -> (forall y, In y l -> R y x) -> StronglySorted R (l ++ [x]).
Proof.
  induction l as [|a l IH]; cbn; intros Hs Hx.
  - constructor; constructor.
  - inversion Hs as [|? ? Hl Ha]; subst. constructor.
    + apply IH; auto.
    + apply Forall_app; split; [exact Ha|]. constructor; [apply Hx; auto|constructor].
Qed.

Lemma step_ordered (s s' : UsbState) (l : Label) :
  usb_inv s -> shown_ordered s -> step s l = Some s' -> shown_ordered s'.
Proof.
  intros (_ & I2 & _) [O1 O2] Hs.
  destruct s as [img nf rn rl pc pd em hd sh gp]; unfold shown_ordered, frame_le in *;
    cbn in *.
  destruct l as [| [] | | | | | |]; destruct pc; cbn in Hs; try discriminate;
    repeat match type of Hs with
    | context [match ?x with _ => _ end] => destruct x eqn:?; try discriminate
    end;
    injection Hs as <-; cbn; rewrite ?app_nil_r; split; try assumption.
  all: try (apply StronglySorted_snoc; [assumption|]; intros y Hy; apply (O2 y _ Hy eq_refl)).
  all: intros u v Hu Hv; try discriminate Hv; injection Hv as Hv; subst v; cbn;
       try (apply in_app_or in Hu as [Hu|[Hu|[]]]; [|subst u]);
       first [ lia | apply (O2 u _ Hu eq_refl) | apply Nat.lt_le_incl, I2, Hu ].
Qed.

Lemma run_ordered (ls : list Label) : forall s s',
  usb_inv s -> shown_ordered s -> run s ls = Some s' -> shown_ordered s'.
Proof.
  induction ls as [|l ls IH]; cbn; intros s s' Hi Ho Hr.
  - injection Hr as <-; exact Ho.
  - destruct (step s l) as [s1|] eqn:Hs; [|discriminate].
    apply (IH s1); [eapply step_inv; eauto | eapply step_ordered; eauto | exact Hr].
Qed.

Lemma run_capture_rounds (n : nat) : forall s,
  cap_pc s = AtLoopTest -> running s = true ->
  exists s', run s (capture_rounds n) = Some s' /\
    cap_pc s' = AtLoopTest /\ running s' = true /\
    pending s' = pending s + n /\ emitted s' = emitted s + n /\ handled s' = handled s /\
    gui_pc s' = gui_pc s.
Proof.
  induction n as [|n IH]; intros s Hc Hrn.
  - exists s; cbn; rewrite !Nat.add_0_r; repeat split; assumption.
  - destruct s as [img nf rn rl pc pd em hd sh gp]; cbn in Hc, Hrn; subst pc rn.
    cbn [capture_rounds]; rewrite run_app; cbn.
    edestruct (IH (mkUsb (Some (mkFrame nf true)) (S nf) true rl AtLoopTest (S pd) (S em) hd sh gp))
      as (s' & Hr & H1 & H2 & H3 & H4 & H5 & H6); [reflexivity|reflexivity|].
    exists s'; rewrite Hr; cbn in *; repeat split; try assumption; lia.
Qed.

Lemma step_emit_budget (s s' : UsbState) (l : Label) :
  running s = false -> step s l = Some s' ->
  running s' = false /\ emitted s' + emit_budget s' <= emitted s + emit_budget s.
Proof.
  destruct s as [img nf rn rl pc pd em hd sh gp]; cbn; intros -> Hs.
  unfold emit_budget.
  destruct l as [| [] | | | | | |]; destruct pc; cbn in Hs; try discriminate;
    repeat match type of Hs with
    | context [match ?x with _ => _ end] => destruct x eqn:?; try discriminate
    end;
    injection Hs as <-; cbn; split; try reflexivity;
    repeat match goal with |- context [match ?x with _ => _ end] => destruct x end; lia.
Qed.

Lemma run_emit_budget (ls : list Label) : forall s s',
  running s = false -> run s ls = Some s' ->
  emitted s' + emit_budget s' <= emitted s + emit_budget s.
Proof.
  induction ls as [|l ls IH]; cbn; intros s s' Hr Hrun.
  - injection Hrun as <-; lia.
  - destruct (step s l) as [s1|] eqn:Hs; [|discriminate].
    destruct (step_emit_budget s s1 l Hr Hs) as [Hr1 H1].
    specialize (IH s1 s' Hr1 Hrun); lia.
Qed.

Lemma step_camera_gone (s s' : UsbState) (l : Label) :
  camera_gone s -> step s l = Some s' -> camera_gone s'.
Proof.
  destruct s as [img nf rn rl pc pd em hd sh gp]; unfold camera_gone; cbn; intros H Hs.
  destruct l as [| [] | | | | | |]; destruct pc; cbn in Hs; try discriminate;
    repeat match type of Hs with
    | context [match ?x with _ => _ end] => destruct x eqn:?; try discriminate
    end;
    injection Hs as <-; cbn; intros [E|E]; try discriminate E; auto.
Qed.

Lemma run_camera_gone (ls : list Label) : forall s s',
  camera_gone s -> run s ls = Some s' -> camera_gone s'.
Proof.
  induction ls as [|l ls IH]; cbn; intros s s' H Hr.
  - injection Hr as <-; exact H.
  - destruct (step s l) as [s1|] eqn:Hs; [|discriminate].
    exact (IH s1 s' (step_camera_gone s s1 l H Hs) Hr).
Qed.

Lemma run_finished (ls : list Label) : forall s s',
  cap_pc s = Finished -> run s ls = Some s' -> reads ls = 0 /\ cap_pc s' = Finished.
Proof.
  induction ls as [|l ls IH]; cbn; intros s s' Hc Hr.
  - injection Hr as <-; auto.
  - destruct (step s l) as [s1|] eqn:Hs; [|discriminate].
    destruct s as [img nf rn rl pc pd em hd sh gp]; cbn in Hc; subst pc.
    destruct l as [| [] | | | | | |]; cbn in Hs; try discriminate;
      repeat match type of Hs with
      | context [match ?x with _ => _ end] => destruct x eqn:?; try discriminate
      end;
      injection Hs as <-; (eapply IH; [|exact Hr]; reflexivity).
Qed.

(* ------------------------------------------------------------------ *)
(** ** More of the argument parser: lemmas *)

Lemma digit_cases (c : ascii) :
  digit_val c <> None -> In c ["0"; "1"; "2"; "3"; "4"; "5"; "6"; "7"; "8"; "9"]%char.
Proof.
  destruct c as [[] [] [] [] [] [] [] []]; vm_compute;
    first [tauto | intros H; exfalso; apply H; reflexivity].
Qed.

Lemma digits_acc_all (l : list ascii) : forall acc z,
  digits_acc acc l = Some z -> forall c, In c l -> digit_val c <> None.
Proof.
  induction l as [|d l IH]; cbn; intros acc z H c Hc; [destruct Hc|].
  destruct (digit_val d) eqn:Hd; [|discriminate].
  destruct Hc as [<-|Hc]; [congruence|exact (IH _ _ H c Hc)].
Qed.

Lemma split_eq_none (s : string) :
  (forall c, In c (list_ascii_of_string s) -> digit_val c <> None) -> split_eq s = None.
Proof.
  induction s as [|c s IH]; cbn; intros H; [reflexivity|].
  rewrite IH by (intros x Hx; apply H; right; exact Hx).
  specialize (H c (or_introl eq_refl)); apply digit_cases in H.
  repeat (destruct H as [<-|H]; [reflexivity|]); destruct H.
Qed.

Lemma digit_not_space (c : ascii) : digit_val c <> None -> is_space c = false.
Proof.
  intros H; apply digit_cases in H.
  repeat (destruct H as [<-|H]; [reflexivity|]); destruct H.
Qed.

Lemma lstrip_digits (l : list ascii) :
  (forall c, In c l -> digit_val c <> None) -> lstrip l = l.
Proof.
  destruct l as [|c l]; intros Hd; [reflexivity|]. cbn.
  rewrite digit_not_space by (apply Hd; left; reflexivity); reflexivity.
Qed.

Lemma negative_number_digits (l : list ascii) :
  l <> [] -> (forall c, In c l -> digit_val c <> None) ->
  is_negative_number (string_of_list_ascii ("-"%char :: l)) = true.
Proof.
  intros Hne Hd.
  assert (Hf : forallb is_digit l = true).
  { apply forallb_forall; intros x Hx; unfold is_digit.
    destruct (digit_val x) eqn:E; [reflexivity|]. exfalso; exact (Hd x Hx E). }
  unfold is_negative_number. rewrite list_ascii_of_string_of_list_ascii.
  apply orb_true_iff; left.
  destruct l as [|a l]; [contradiction|]. cbn [negative_body]. rewrite Hf; reflexivity.
Qed.

Lemma strip_signed_digits (l : list ascii) :
  l <> [] -> (forall c, In c l -> digit_val c <> None) ->
  strip ("-"%char :: l) = "-"%char :: l.
Proof.
  intros Hne Hd. unfold strip.
  change (lstrip ("-"%char :: l)) with ("-"%char :: l).
  change (rev ("-"%char :: l)) with (rev l ++ ["-"%char]).
  destruct (rev l) as [|d t] eqn:Hr.
  - apply (f_equal (@rev ascii)) in Hr; rewrite rev_involutive in Hr; contradiction.
  - cbn [app lstrip]. rewrite digit_not_space.
    + change (d :: t ++ ["-"%char]) with ((d :: t) ++ ["-"%char]).
      rewrite <- Hr, rev_app_distr, rev_involutive; reflexivity.
    + apply Hd, in_rev; rewrite Hr; left; reflexivity.
Qed.

Lemma abbrev_ok_spec (o p : string) :
  abbrev_ok o p = true ->
  (exists a, parse_optional p = Matched o a None) \/
  (exists l, parse_optional p = Ambiguous l /\ In o l) \/
  (In p spec_flags /\ exists a, parse_optional p = Matched p a None).
Proof.
  unfold abbrev_ok; destruct (parse_optional p) as [|o' a [e|]|l|]; try discriminate.
  - intros H; apply orb_true_iff in H as [H|H].
    + apply String.eqb_eq in H; subst; left; eexists; reflexivity.
    + apply andb_true_iff in H as [H1 H2]; apply String.eqb_eq in H1; subst.
      right; right; split; [|eexists; reflexivity].
      apply existsb_exists in H2 as (x & Hx & E); apply String.eqb_eq in E; subst; exact Hx.
  - intros H; apply existsb_exists in H as (x & Hx & E); apply String.eqb_eq in E; subst.
    right; left; eexists; split; [reflexivity|exact Hx].
Qed.

Lemma blob_roundtrip (o : Obj) : String.length (blob o) = o.
Proof. induction o as [|o IH]; cbn; congruence. Qed.

(* ------------------------------------------------------------------ *)
(** ** Further properties of the code *)

(** X1: in -stereo mode the driver calls [StereoCameraCalibration] once,
    with the object unpickled from camera-calibration-left.pkl as [cam1],
    the one from camera-calibration-right.pkl as [cam2], and the -debug
    flag. *)
Theorem main_stereo_calibration_inputs (env : Env) (args : Args) (cl cr : Obj) :
  live args = false -> py_truthy (mono args) = false -> stereo args = true ->
  snd (pattern_size args) <> None ->
  loaded env "camera-calibration-left.pkl" = Some cl ->
  loaded env "camera-calibration-right.pkl" = Some cr ->
  routines (fst (main env args)) = [RStereo] /\
  In (EvStereoCameraCalibration cl cr (debug args)) (fst (main env args)).
Proof. exact (main_stereo_call env args cl cr). Qed.

(** X2: in -undistort mode the driver's only library call is
    [UndistortImages] on the object unpickled from camera-calibration.pkl,
    and the run ends as that call does. *)
Theorem main_undistort_input (env : Env) (args : Args) (c : Obj) :
  live args = false -> py_truthy (mono args) = false -> stereo args = false ->
  undistort args = true -> snd (pattern_size args) <> None ->
  loaded env "camera-calibration.pkl" = Some c ->
  fst (main env args) = [EvUndistortImages c] /\
  snd (main env args) = (if lib_undistort env c then Some tt else None).
Proof. exact (main_undistort_call env args c). Qed.

(** X3: in -undistort_stereo mode the driver's only library call is
    [StereoUndistortImages] on the objects unpickled from the left, right and
    stereo calibration files, in that order. *)
Theorem main_undistort_stereo_inputs (env : Env) (args : Args) (c1 c2 c3 : Obj) :
  live args = false -> py_truthy (mono args) = false -> stereo args = false ->
  undistort args = false -> undistort_stereo args = true ->
  snd (pattern_size args) <> None ->
  loaded env "camera-calibration-left.pkl" = Some c1 ->
  loaded env "camera-calibration-right.pkl" = Some c2 ->
  loaded env "stereo-calibration.pkl" = Some c3 ->
  fst (main env args) = [EvStereoUndistortImages c1 c2 c3] /\
  snd (main env args) = (if lib_stereo_undistort env c1 c2 c3 then Some tt else None).
Proof. exact (main_undistort_stereo_call env args c1 c2 c3). Qed.

(** X4: a completed -mono run pickles the object [CameraCalibration]
    returned, into the one file chosen by -output/-left/-right, and into no
    other file. *)
Theorem main_mono_pickles_calibration (env : Env) (args : Args) :
  live args = false -> py_truthy (mono args) = true ->
  snd (main env args) = Some tt ->
  exists ps c,
    snd (pattern_size args) = Some ps /\
    lib_camera_calibration env (sorted (glob_glob env (mono_value (mono args)))) ps (debug args) = Some c /\
    forall n, dumped (fst (main env args)) n =
      (if existsb (String.eqb n) (mono_target args) then Some c else None).
Proof. exact (main_mono_dumped env args). Qed.

(** X5: a completed -stereo run pickles the object [StereoCameraCalibration]
    returned into stereo-calibration.pkl when -output is given, and pickles
    nothing otherwise. *)
Theorem main_stereo_pickles_calibration (env : Env) (args : Args) :
  live args = false -> py_truthy (mono args) = false -> stereo args = true ->
  snd (main env args) = Some tt ->
  exists c1 c2 c,
    loaded env "camera-calibration-left.pkl" = Some c1 /\
    loaded env "camera-calibration-right.pkl" = Some c2 /\
    lib_stereo_calibration env c1 c2 (debug args) = Some c /\
    forall n, dumped (fst (main env args)) n =
      (if output args && String.eqb "stereo-calibration.pkl" n then Some c else None).
Proof. exact (main_stereo_dumped env args). Qed.

(** X6: the calibration workflow.  After a completed [-mono ... -left] run and
    a completed [-mono ... -right] run, a -stereo run calls
    [StereoCameraCalibration] with the left run's calibration as [cam1] and
    the right run's as [cam2], provided unpickling reads back what pickling
    wrote. *)
Theorem workflow_stereo_calibration (enc : Obj -> string) (env : Env) (a1 a2 a3 : Args) :
  (forall o, pickle_load env (enc o) = Some o) ->
  live a1 = false -> py_truthy (mono a1) = true -> output a1 = false -> left a1 = true ->
  live a2 = false -> py_truthy (mono a2) = true -> output a2 = false -> left a2 = false ->
  right a2 = true ->
  live a3 = false -> py_truthy (mono a3) = false -> stereo a3 = true ->
  snd (pattern_size a3) <> None ->
  let env1 := after_run enc env (fst (main env a1)) in
  let env2 := after_run enc env1 (fst (main env1 a2)) in
  snd (main env a1) = Some tt -> snd (main env1 a2) = Some tt ->
  exists ps1 ps2 cl cr,
    snd (pattern_size a1) = Some ps1 /\ snd (pattern_size a2) = Some ps2 /\
    lib_camera_calibration env (sorted (glob_glob env (mono_value (mono a1)))) ps1 (debug a1) = Some cl /\
    lib_camera_calibration env (sorted (glob_glob env (mono_value (mono a2)))) ps2 (debug a2) = Some cr /\
    In (EvStereoCameraCalibration cl cr (debug a3)) (fst (main env2 a3)).
Proof.
  intros Hpk L1 M1 O1 F1 L2 M2 O2 F2 G2 L3 M3 S3 P3 env1 env2 R1 R2.
  destruct (main_mono_dumped env a1 L1 M1 R1) as (ps1 & cl & P1 & C1 & D1).
  destruct (main_mono_dumped env1 a2 L2 M2 R2) as (ps2 & cr & P2 & C2 & D2).
  exists ps1, ps2, cl, cr; do 4 (split; [assumption|]).
  unfold mono_target in D1, D2; rewrite O1, F1 in D1; rewrite O2, F2, G2 in D2.
  apply (main_stereo_call env2 a3 cl cr L3 M3 S3 P3).
  - unfold env2; rewrite loaded_after_run, D2; cbn.
    unfold env1; rewrite loaded_after_run, D1; cbn. apply Hpk.
  - unfold env2; rewrite loaded_after_run, D2; cbn. apply Hpk.
Qed.

(** X7: after a completed [-mono ... -output] run, an -undistort run calls
    [UndistortImages] on the calibration the -mono run computed, and on
    nothing else. *)
Theorem workflow_undistort (enc : Obj -> string) (env : Env) (a1 a2 : Args) :
  (forall o, pickle_load env (enc o) = Some o) ->
  live a1 = false -> py_truthy (mono a1) = true -> output a1 = true ->
  live a2 = false -> py_truthy (mono a2) = false -> stereo a2 = false ->
  undistort a2 = true -> snd (pattern_size a2) <> None ->
  snd (main env a1) = Some tt ->
  exists ps c,
    snd (pattern_size a1) = Some ps /\
    lib_camera_calibration env (sorted (glob_glob env (mono_value (mono a1)))) ps (debug a1) = Some c /\
    main (after_run enc env (fst (main env a1))) a2 =
      ([EvUndistortImages c], if lib_undistort env c then Some tt else None).
Proof.
  intros Hpk L1 M1 O1 L2 M2 S2 U2 P2 R1.
  destruct (main_mono_dumped env a1 L1 M1 R1) as (ps & c & P1 & C1 & D1).
  exists ps, c; do 2 (split; [assumption|]).
  unfold mono_target in D1; rewrite O1 in D1.
  destruct (main_undistort_call (after_run enc env (fst (main env a1))) a2 c L2 M2 S2 U2 P2)
    as [E1 E2].
  - rewrite loaded_after_run, D1; cbn; apply Hpk.
  - destruct (main _ a2); cbn in E1, E2; subst; reflexivity.
Qed.

(** X8: after a completed [-stereo -output] run, an -undistort_stereo run
    calls [StereoUndistortImages] on the left and right calibrations the
    -stereo run read and on the stereo calibration it computed. *)
Theorem workflow_undistort_stereo (enc : Obj -> string) (env : Env) (a1 a2 : Args) (cl cr : Obj) :
  (forall o, pickle_load env (enc o) = Some o) ->
  loaded env "camera-calibration-left.pkl" = Some cl ->
  loaded env "camera-calibration-right.pkl" = Some cr ->
  live a1 = false -> py_truthy (mono a1) = false -> stereo a1 = true -> output a1 = true ->
  live a2 = false -> py_truthy (mono a2) = false -> stereo a2 = false ->
  undistort a2 = false -> undistort_stereo a2 = true -> snd (pattern_size a2) <> None ->
  snd (main env a1) = Some tt ->
  exists c,
    lib_stereo_calibration env cl cr (debug a1) = Some c /\
    main (after_run enc env (fst (main env a1))) a2 =
      ([EvStereoUndistortImages cl cr c],
       if lib_stereo_undistort env cl cr c then Some tt else None).
Proof.
  intros Hpk Hl Hr L1 M1 S1 O1 L2 M2 S2 U2 V2 P2 R1.
  destruct (main_stereo_dumped env a1 L1 M1 S1 R1) as (c1 & c2 & c & E1 & E2 & C & D1).
  rewrite Hl in E1; rewrite Hr in E2; injection E1 as <-; injection E2 as <-.
  exists c; split; [assumption|].
  rewrite O1 in D1; cbn in D1.
  destruct (main_undistort_stereo_call (after_run enc env (fst (main env a1))) a2 cl cr c
              L2 M2 S2 U2 V2 P2) as [F1 F2].
  - rewrite loaded_after_run, D1; cbn; exact Hl.
  - rewrite loaded_after_run, D1; cbn; exact Hr.
  - rewrite loaded_after_run, D1; cbn; apply Hpk.
  - destruct (main _ a2); cbn in F1, F2; subst; reflexivity.
Qed.

(** X9: a -live or -mono run never reads a calibration file: its trace and
    outcome are the same whatever the files hold and however they unpickle. *)
Theorem main_live_mono_ignore_files (env : Env) (args : Args)
  (rd : string -> option string) (pl : string -> option Obj) :
  live args = true \/ py_truthy (mono args) = true ->
  main (with_files env rd pl) args = main env args.
Proof.
  intros H; unfold main, bind; destruct (pattern_size args) as [t [ps|]]; [|reflexivity].
  destruct H as [H|H]; rewrite H; [reflexivity|].
  destruct (live args); reflexivity.
Qed.

(** X10: without -live and -mono, the driver never calls [glob.glob]: its
    trace and outcome do not depend on it. *)
Theorem main_load_modes_ignore_glob (env : Env) (args : Args) (g : string -> list string) :
  live args = false -> py_truthy (mono args) = false ->
  main (with_glob env g) args = main env args.
Proof.
  intros L M; unfold main, bind; destruct (pattern_size args) as [t [ps|]]; [|reflexivity].
  rewrite L, M; reflexivity.
Qed.

(** X11: the USB widget shows frames in capture order: in every execution,
    no frame is shown after a frame captured later. *)
Theorem usb_shown_in_capture_order (ls : list Label) (s : UsbState) :
  run init ls = Some s -> StronglySorted frame_le (shown s).
Proof.
  intros Hr. apply (run_ordered ls init s); [apply init_inv | | exact Hr].
  split; [constructor | cbn; tauto].
Qed.

(** X12: the capture thread never waits for the GUI: for every [n] there is
    an execution in which [n] image_received signals are queued and none has
    been handled, with the window still open. *)
Theorem usb_signals_pile_up (n : nat) :
  exists ls s, run init ls = Some s /\ pending s = n /\ emitted s = n /\ handled s = 0 /\
               running s = true /\ gui_pc s = GuiRunning.
Proof.
  destruct (run_capture_rounds n init eq_refl eq_refl)
    as (s & Hr & _ & H2 & H3 & H4 & H5 & H6).
  exists (capture_rounds n), s; cbn in *; repeat split; assumption.
Qed.

(** X13: when the capture thread has just read a frame and not yet converted
    it, and a signal is queued, the GUI's next [UpdateImage] shows that frame
    still in the camera's BGR order. *)
Theorem usb_update_shows_unconverted (ls : list Label) (s : UsbState) (f : Frame) :
  run init ls = Some s -> cap_pc s = AtConvert -> image s = Some f ->
  0 < pending s -> gui_pc s = GuiRunning ->
  frame_rgb f = false /\
  exists s', step s LUpdate = Some s' /\ shown s' = shown s ++ [f] /\ cap_pc s' = AtConvert.
Proof.
  intros Hr Hc Hi Hp Hg.
  destruct (reachable_inv ls s Hr) as (_ & _ & _ & _ & _ & _ & I7 & _).
  destruct (I7 Hc) as [E|E]; rewrite Hi in E; [discriminate|].
  injection E as ->; split; [reflexivity|].
  destruct s as [img nf rn rl pc pd em hd sh gp]; cbn in *; subst.
  destruct pd as [|pd]; [lia|].
  eexists; split; [reflexivity|split; reflexivity].
Qed.

(** X14: once [Stop] has set [running] to False, the capture thread makes
    at most one more callback, whatever the interleaving. *)
Theorem usb_stop_at_most_one_callback (s s' : UsbState) (ls : list Label) :
  running s = false -> run s ls = Some s' -> emitted s' <= S (emitted s).
Proof.
  intros Hr Hrun.
  assert (Hb : emit_budget s <= 1)
    by (unfold emit_budget; destruct (cap_pc s), (image s); lia).
  pose proof (run_emit_budget ls s s' Hr Hrun); lia.
Qed.

(** X15: the camera is released only after [Stop] has set [running] to
    False, and once released it is never read again. *)
Theorem usb_released_camera_untouched (l1 l2 : list Label) (s s' : UsbState) :
  run init l1 = Some s -> released s = true -> run s l2 = Some s' ->
  running s = false /\ reads l2 = 0 /\ released s' = true.
Proof.
  intros H1 Hrl H2.
  destruct (reachable_inv l1 s H1) as (_ & _ & _ & [R _] & _).
  specialize (R Hrl).
  assert (Hg : camera_gone s).
  { apply (run_camera_gone l1 init s); [|exact H1].
    unfold camera_gone; cbn; intros [E|E]; discriminate E. }
  destruct (run_finished l2 s s' R H2) as [Hn Hf].
  destruct (reachable_inv (l1 ++ l2) s') as (_ & _ & _ & [_ R'] & _).
  { rewrite run_app, H1; exact H2. }
  repeat split; auto.
Qed.

(** X16: every abbreviation of a flag (two characters or more) is either
    resolved by argparse to that flag, rejected as ambiguous with the flag
    among the candidates, or is itself another flag (as -undistort is a
    prefix of -undistort_stereo) and resolves to it. *)
Theorem parser_abbreviations (o : string) (n : nat) :
  In o spec_flags -> 2 <= n < String.length o ->
  let p := String.substring 0 n o in
  (exists a, parse_optional p = Matched o a None) \/
  (exists l, parse_optional p = Ambiguous l /\ In o l) \/
  (In p spec_flags /\ exists a, parse_optional p = Matched p a None).
Proof.
  intros H Hn p; apply abbrev_ok_spec.
  assert (Hall : forallb (fun o => forallb (fun n => abbrev_ok o (String.substring 0 n o))
                                           (seq 2 (String.length o - 2))) spec_flags = true)
    by (vm_compute; reflexivity).
  rewrite forallb_forall in Hall; specialize (Hall o H); rewrite forallb_forall in Hall.
  apply Hall, in_seq; lia.
Qed.

(** X17: for every option of the parser (-h and --help included) and every
    value [v], the argument [option=v] is matched to that option with the
    explicit value [v]. *)
Theorem parser_explicit_value (o : string) (a : ArgAction) (v : string) :
  In (o, a) option_string_actions ->
  parse_optional (o ++ String "=" v) = Matched o a (Some v).
Proof.
  intros H; cbn in H.
  repeat (destruct H as [H|H]; [injection H as <- <-; reflexivity|]); destruct H.
Qed.

(** X18: a negative number such as -5 is not taken for an option: argparse
    treats it as a value, so [-rows -5] is accepted, [int] turns it into -5,
    and the pattern size is (-5, 10). *)
Theorem parser_negative_value (s : string) (z : Z) :
  parse_digits (list_ascii_of_string s) = Some z ->
  parse_optional (String "-" s) = NotAnOption /\
  py_int (String "-" s) = Some (- z)%Z /\
  (forall args, rows args = Some (String "-" s) -> cols args = None ->
     pattern_size args = ([], Some (- z, 10)%Z)).
Proof.
  intros H.
  assert (Hd : forall c, In c (list_ascii_of_string s) -> digit_val c <> None).
  { destruct (list_ascii_of_string s) eqn:E; [discriminate|]. apply (digits_acc_all _ _ _ H). }
  assert (Hne : list_ascii_of_string s <> []) by (intros E; rewrite E in H; discriminate).
  assert (Hp : py_int (String "-" s) = Some (- z)%Z).
  { unfold py_int. change (list_ascii_of_string (String "-" s)) with ("-"%char :: list_ascii_of_string s).
    rewrite strip_signed_digits by assumption. cbn -[lstrip parse_digits].
    rewrite lstrip_digits, H by assumption; reflexivity. }
  assert (Hneg : is_negative_number (String "-" s) = true).
  { pose proof (negative_number_digits _ Hne Hd) as Hn.
    cbn [string_of_list_ascii] in Hn. rewrite string_of_list_ascii_of_string in Hn. exact Hn. }
  split; [|split; [exact Hp|]].
  - destruct s as [|c r]; [discriminate|].
    assert (Hr : split_eq r = None) by (apply split_eq_none; intros x Hx; apply Hd; right; exact Hx).
    assert (Hc : digit_val c <> None) by (apply Hd; left; reflexivity).
    apply digit_cases in Hc.
    repeat (destruct Hc as [<-|Hc];
      [unfold parse_optional; cbn -[is_negative_number]; rewrite Hr;
       cbn -[is_negative_number]; rewrite Hneg; reflexivity|]).
    destruct Hc.
  - intros args Hrw Hcl. unfold pattern_size, int_arg, bind, ret, of_option.
    rewrite Hrw, Hcl, Hp; reflexivity.
Qed.

(* ------------------------------------------------------------------ *)
(** ** Witnesses of the further properties *)

Lemma main_stereo_calibration_inputs_witness :
  routines (fst (main env_calibrated args_stereo)) = [RStereo] /\
  In (EvStereoCameraCalibration 27 28 false) (fst (main env_calibrated args_stereo)).
Proof.
  apply (main_stereo_calibration_inputs env_calibrated args_stereo 27 28);
    first [reflexivity | discriminate].
Defined.

Lemma main_undistort_input_witness :
  fst (main env_calibrated args_undistort) = [EvUndistortImages 22] /\
  snd (main env_calibrated args_undistort) = Some tt.
Proof.
  apply (main_undistort_input env_calibrated args_undistort 22);
    first [reflexivity | discriminate].
Defined.

Lemma main_undistort_stereo_inputs_witness :
  fst (main env_calibrated args_undistort_stereo) = [EvStereoUndistortImages 27 28 22] /\
  snd (main env_calibrated args_undistort_stereo) = Some tt.
Proof.
  apply (main_undistort_stereo_inputs env_calibrated args_undistort_stereo 27 28 22);
    first [reflexivity | discriminate].
Defined.

Lemma main_mono_pickles_calibration_witness :
  exists ps c,
    snd (pattern_size args_mono_left) = Some ps /\
    lib_camera_calibration env_disk
      (sorted (glob_glob env_disk (mono_value (mono args_mono_left)))) ps false = Some c /\
    forall n, dumped (fst (main env_disk args_mono_left)) n =
      (if existsb (String.eqb n) (mono_target args_mono_left) then Some c else None).
Proof.
  apply (main_mono_pickles_calibration env_disk args_mono_left);
    vm_compute; reflexivity.
Defined.

Lemma main_stereo_pickles_calibration_witness :
  exists c1 c2 c,
    loaded env_calibrated "camera-calibration-left.pkl" = Some c1 /\
    loaded env_calibrated "camera-calibration-right.pkl" = Some c2 /\
    lib_stereo_calibration env_calibrated c1 c2 false = Some c /\
    forall n, dumped (fst (main env_calibrated args_stereo_output)) n =
      (if true && String.eqb "stereo-calibration.pkl" n then Some c else None).
Proof.
  apply (main_stereo_pickles_calibration env_calibrated args_stereo_output);
    vm_compute; reflexivity.
Defined.

Lemma workflow_stereo_calibration_witness :
  exists ps1 ps2 cl cr,
    snd (pattern_size args_mono_left) = Some ps1 /\
    snd (pattern_size args_mono_right) = Some ps2 /\
    lib_camera_calibration env_disk (sorted (glob_glob env_disk (mono_value (mono args_mono_left)))) ps1 false = Some cl /\
    lib_camera_calibration env_disk (sorted (glob_glob env_disk (mono_value (mono args_mono_right)))) ps2 false = Some cr /\
    In (EvStereoCameraCalibration cl cr false)
       (fst (main (after_run blob (after_run blob env_disk (fst (main env_disk args_mono_left)))
                     (fst (main (after_run blob env_disk (fst (main env_disk args_mono_left)))
                                args_mono_right)))
                  args_stereo)).
Proof.
  apply (workflow_stereo_calibration blob env_disk args_mono_left args_mono_right args_stereo);
    first [intro o; cbn; rewrite blob_roundtrip; reflexivity | reflexivity | discriminate | vm_compute; reflexivity].
Defined.

Lemma workflow_undistort_witness :
  exists ps c,
    snd (pattern_size args_mono_output) = Some ps /\
    lib_camera_calibration env_disk (sorted (glob_glob env_disk (mono_value (mono args_mono_output)))) ps false = Some c /\
    main (after_run blob env_disk (fst (main env_disk args_mono_output))) args_undistort =
      ([EvUndistortImages c], if lib_undistort env_disk c then Some tt else None).
Proof.
  apply (workflow_undistort blob env_disk args_mono_output args_undistort);
    first [intro o; cbn; rewrite blob_roundtrip; reflexivity | reflexivity | discriminate | vm_compute; reflexivity].
Defined.

Lemma workflow_undistort_stereo_witness :
  exists c,
    lib_stereo_calibration env_calibrated 27 28 false = Some c /\
    main (after_run blob env_calibrated (fst (main env_calibrated args_stereo_output)))
         args_undistort_stereo =
      ([EvStereoUndistortImages 27 28 c],
       if lib_stereo_undistort env_calibrated 27 28 c then Some tt else None).
Proof.
  apply (workflow_undistort_stereo blob env_calibrated args_stereo_output args_undistort_stereo);
    first [intro o; cbn; rewrite blob_roundtrip; reflexivity | reflexivity | discriminate | vm_compute; reflexivity].
Defined.

Lemma main_live_mono_ignore_files_witness :
  main (with_files env_glob (fun _ => None) (fun _ => None)) args_mono_glob =
  main env_glob args_mono_glob.
Proof.
  apply main_live_mono_ignore_files; right; reflexivity.
Defined.

Lemma main_load_modes_ignore_glob_witness :
  main (with_glob env_calibrated (fun _ => ["z.png"]%string)) args_undistort_stereo =
  main env_calibrated args_undistort_stereo.
Proof.
  apply main_load_modes_ignore_glob; reflexivity.
Defined.

Lemma usb_shown_in_capture_order_witness :
  exists s, run init two_frames_shown = Some s /\ StronglySorted frame_le (shown s).
Proof.
  eexists; split; [vm_compute; reflexivity|].
  apply (usb_shown_in_capture_order two_frames_shown); vm_compute; reflexivity.
Defined.

Lemma usb_update_shows_unconverted_witness :
  exists s, run init read_before_update = Some s /\
    (frame_rgb (mkFrame 1 false) = false /\
     exists s', step s LUpdate = Some s' /\ shown s' = shown s ++ [mkFrame 1 false] /\
                cap_pc s' = AtConvert).
Proof.
  eexists; split; [vm_compute; reflexivity|].
  apply (usb_update_shows_unconverted read_before_update); first [vm_compute; reflexivity | cbn; lia].
Defined.

Lemma usb_stop_at_most_one_callback_witness :
  exists s', run closed_before_read last_round = Some s' /\
             emitted s' <= S (emitted closed_before_read).
Proof.
  eexists; split; [vm_compute; reflexivity|].
  apply (usb_stop_at_most_one_callback closed_before_read _ last_round);
    vm_compute; reflexivity.
Defined.

Lemma usb_released_camera_untouched_witness :
  exists s s', run init close_then_release = Some s /\ run s [LJoin] = Some s' /\
    (running s = false /\ reads [LJoin] = 0 /\ released s' = true).
Proof.
  do 2 eexists; split; [vm_compute; reflexivity|]; split; [vm_compute; reflexivity|].
  apply (usb_released_camera_untouched close_then_release); vm_compute; reflexivity.
Defined.

Lemma parser_abbreviations_witness :
  let p := String.substring 0 10 "-undistort_stereo" in
  (exists a, parse_optional p = Matched "-undistort_stereo" a None) \/
  (exists l, parse_optional p = Ambiguous l /\ In "-undistort_stereo"%string l) \/
  (In p spec_flags /\ exists a, parse_optional p = Matched p a None).
Proof.
  apply parser_abbreviations; [cbn; tauto | cbn; lia].
Defined.

Lemma parser_explicit_value_witness :
  parse_optional ("-rows" ++ String "=" "12") = Matched "-rows" ActStore (Some "12"%string).
Proof.
  apply parser_explicit_value; cbn; tauto.
Defined.

Lemma parser_negative_value_witness :
  parse_optional "-5" = NotAnOption /\ py_int "-5" = Some (-5)%Z /\
  (forall args, rows args = Some "-5"%string -> cols args = None ->
     pattern_size args = ([], Some (-5, 10)%Z)).
Proof.
  apply (parser_negative_value "5" 5); reflexivity.
Defined.
